(** * LSP session manager (src/lsp-manager.ts): shallow embedding and properties

    [LSPManager] owns a registry of language-server sessions. Every method of
    the class is an [async] function: it runs synchronously up to its first
    [await], is suspended there, and is resumed when the awaited promise
    settles. Between two segments of one call anything else may run (another
    call, a process event). The embedding keeps exactly that structure: a
    method is a function from the manager state to the state reached at its
    first suspension, paired with what it is suspended on and the
    continuation that runs at resumption. *)

From Stdlib Require Import ZArith Ascii String.
From stdpp Require Import gmap strings list fin_maps.

Set Warnings "-register-all".
Local Open Scope Z_scope.

(** ** Values exchanged with the language server *)

(** JSON values: request parameters built by the manager and results passed
    through from the subprocess. Numbers that the manager handles (versions,
    positions, the process id) are integers. *)
Inductive json : Type :=
| JNull
| JBool (b : bool)
| JNum (n : Z)
| JStr (s : string)
| JArr (items : list json)
| JObj (fields : list (string * json)).

(** What is handed to a [rpc.MessageConnection]. *)
Inductive Message : Type :=
| Request (method : string) (params : json)
| Notification (method : string) (params : json).

(** The errors a method can throw. The source throws plain [Error] objects
    told apart by their message ([message] below); the first three are the
    kinds the design calls SessionNotFound, UnsupportedLanguage and
    DocumentNotOpen. [ProtocolFailure] is whatever the connection throws or
    rejects with. *)
Inductive error : Type :=
| SessionNotFound (serverId : string)
| UnsupportedLanguage (language : string)
| DocumentNotOpen (fileUri : string)
| ProtocolFailure (cause : string).

Definition message (e : error) : string :=
  match e with
  | SessionNotFound serverId => "Server " +:+ serverId +:+ " not found"
  | UnsupportedLanguage language => "No language server configured for " +:+ language
  | DocumentNotOpen fileUri => "Document " +:+ fileUri +:+ " not open"
  | ProtocolFailure cause => cause
  end.

(** How an awaited promise of the connection settles. *)
Inductive settle : Type :=
| Resolve (v : json)
| Reject (cause : string).

(** ** Data model *)

(** [TextDocument] of vscode-languageserver-textdocument, as far as the
    manager uses it. [version] is a JS number; it is exact below 2^53. *)
Record TextDocument : Type := {
  uri : string;
  languageId : string;
  version : Z;
  getText : string
}.

Definition TextDocument_create (uri languageId : string) (version : Z) (content : string)
  : TextDocument :=
  {| uri := uri; languageId := languageId; version := version; getText := content |}.

(** [interface LSPServerInfo]. The child process and the connection are
    objects of the runtime; the record holds handles to them, so that a
    continuation that captured [server] still reaches them after the entry
    has left the registry. *)
Record LSPServerInfo : Type := {
  id : string;
  language : string;
  workspaceUri : string;
  process : nat;
  connection : nat;
  documents : gmap string TextDocument;
  initialized : bool
}.

(** [class LSPManager] together with the part of the runtime it acts on:
    [servers] is the private registry; [pid] is [process.pid]; the other
    fields record effects: the commands spawned (a process handle is its
    index there, and its connection has the same handle), the messages handed
    to connections, the connections whose stream closed, those disposed, and
    the processes killed. Logging to the console is not modelled. *)
Record LSPManager : Type := {
  servers : gmap string LSPServerInfo;
  pid : Z;
  spawned : list (string * list string);
  sent : list (nat * Message);
  closed : list nat;
  disposed : list nat;
  killed : list nat
}.

(** The private table [languageServerCommands]; it is never modified. *)
Definition languageServerCommands : gmap string (string * list string) :=
  list_to_map [
    ("typescript", ("typescript-language-server", ["--stdio"]));
    ("python", ("pylsp", []));
    ("rust", ("rust-analyzer", []));
    ("go", ("gopls", []));
    ("java", ("jdtls", []));
    ("cpp", ("clangd", []))
  ]%string.

Definition with_servers (f : gmap string LSPServerInfo → gmap string LSPServerInfo)
    (m : LSPManager) : LSPManager :=
  {| servers := f (servers m); pid := pid m; spawned := spawned m; sent := sent m;
     closed := closed m; disposed := disposed m; killed := killed m |}.

Definition with_documents (f : gmap string TextDocument → gmap string TextDocument)
    (s : LSPServerInfo) : LSPServerInfo :=
  {| id := id s; language := language s; workspaceUri := workspaceUri s;
     process := process s; connection := connection s;
     documents := f (documents s); initialized := initialized s |}.

Definition with_initialized (b : bool) (s : LSPServerInfo) : LSPServerInfo :=
  {| id := id s; language := language s; workspaceUri := workspaceUri s;
     process := process s; connection := connection s;
     documents := documents s; initialized := b |}.

(** ** Effects on the runtime *)

(** [child_process.spawn(command, args, ...)]: always returns a process
    object; a command that cannot be run is reported later by an 'error'
    event. *)
Definition spawn (command : string) (args : list string) (m : LSPManager) : LSPManager :=
  {| servers := servers m; pid := pid m; spawned := spawned m ++ [(command, args)];
     sent := sent m; closed := closed m; disposed := disposed m; killed := killed m |}.

Definition transmit (c : nat) (msg : Message) (m : LSPManager) : LSPManager :=
  {| servers := servers m; pid := pid m; spawned := spawned m;
     sent := sent m ++ [(c, msg)]; closed := closed m; disposed := disposed m;
     killed := killed m |}.

(** [connection.dispose()]. *)
Definition dispose (c : nat) (m : LSPManager) : LSPManager :=
  {| servers := servers m; pid := pid m; spawned := spawned m; sent := sent m;
     closed := closed m; disposed := c :: disposed m; killed := killed m |}.

(** [process.kill()]. *)
Definition kill (p : nat) (m : LSPManager) : LSPManager :=
  {| servers := servers m; pid := pid m; spawned := spawned m; sent := sent m;
     closed := closed m; disposed := disposed m; killed := p :: killed m |}.

(** A connection refuses to send once it is closed or disposed: sendRequest
    and sendNotification then throw before returning a promise. *)
Definition throwIfClosedOrDisposed (c : nat) (m : LSPManager) : option error :=
  if decide (c ∈ disposed m) then Some (ProtocolFailure "Connection is disposed.")
  else if decide (c ∈ closed m) then Some (ProtocolFailure "Connection is closed.")
  else None.

(** ** Asynchronous calls *)

(** The state of a call at the end of a segment: its promise is fulfilled,
    rejected, or the call is suspended on a message handed to a connection,
    with the code to run when that promise settles. [Detached bg fg] is a
    call in state [fg] that started the call [bg] without awaiting it. *)
Inductive Async (R : Type) : Type :=
| Fulfilled (r : R)
| Rejected (e : error)
| Pending (awaiting : nat * Message) (k : settle → LSPManager → LSPManager * Async R)
| Detached (bg : Async unit) (fg : Async R).
Arguments Fulfilled {R} r.
Arguments Rejected {R} e.
Arguments Pending {R} awaiting k.
Arguments Detached {R} bg fg.

Definition Task (R : Type) : Type := LSPManager → LSPManager * Async R.

Definition ret {R} (r : R) : Task R := fun m => (m, Fulfilled r).
Definition throw {R} (e : error) : Task R := fun m => (m, Rejected e).

(** [try { x = await connection.sendRequest(method, params); ok x }
     catch (err) { handler err }]. *)
Definition try_sendRequest {R} (c : nat) (method : string) (params : json)
    (ok : json → Task R) (handler : error → Task R) : Task R :=
  fun m =>
    match throwIfClosedOrDisposed c m with
    | Some err => handler err m
    | None =>
        (transmit c (Request method params) m,
         Pending (c, Request method params) (fun o =>
           match o with
           | Resolve v => ok v
           | Reject cause => handler (ProtocolFailure cause)
           end))
    end.

(** The same for [await connection.sendNotification(method, params)]. *)
Definition try_sendNotification {R} (c : nat) (method : string) (params : json)
    (ok : Task R) (handler : error → Task R) : Task R :=
  fun m =>
    match throwIfClosedOrDisposed c m with
    | Some err => handler err m
    | None =>
        (transmit c (Notification method params) m,
         Pending (c, Notification method params) (fun o =>
           match o with
           | Resolve _ => ok
           | Reject cause => handler (ProtocolFailure cause)
           end))
    end.

(** [promise.catch(err => console.error(...))]: a rejection becomes a
    fulfilment. *)
Fixpoint catch_log (a : Async unit) : Async unit :=
  match a with
  | Fulfilled r => Fulfilled r
  | Rejected _ => Fulfilled tt
  | Pending c k => Pending c (fun o m => let '(m', a') := k o m in (m', catch_log a'))
  | Detached bg fg => Detached bg (catch_log fg)
  end.

(** ** Events of the runtime *)

(** The handlers installed by [startServer] on the child process. *)
Definition on_process_error (serverId : string) (m : LSPManager) : LSPManager :=
  with_servers (delete serverId) m.

Definition on_process_exit (serverId : string) (m : LSPManager) : LSPManager :=
  with_servers (delete serverId) m.

(** The stream of connection [c] closes. *)
Definition on_connection_close (c : nat) (m : LSPManager) : LSPManager :=
  {| servers := servers m; pid := pid m; spawned := spawned m; sent := sent m;
     closed := c :: closed m; disposed := disposed m; killed := killed m |}.

(** The subprocess sends a notification on connection [c]. The manager
    calls [connection.listen()] but registers no notification handler on any
    connection, so the message is dropped. *)
Definition on_notification (c : nat) (method : string) (params : json)
    (m : LSPManager) : LSPManager := m.

(** [textDocument/publishDiagnostics] as pushed by a language server. *)
Definition publishDiagnostics (c : nat) (fileUri : string) (diagnostics : list json)
    (m : LSPManager) : LSPManager :=
  on_notification c "textDocument/publishDiagnostics"
    (JObj [("uri", JStr fileUri); ("diagnostics", JArr diagnostics)]%string) m.

(** ** The methods of LSPManager *)

(** [path.basename] on a POSIX host: trailing slashes are dropped, then the
    part after the last slash is kept. *)
Fixpoint skip_slashes (r : list ascii) : list ascii :=
  match r with
  | c :: r' => if decide (c = "/"%char) then skip_slashes r' else r
  | [] => []
  end.

Fixpoint until_slash (r : list ascii) : list ascii :=
  match r with
  | c :: r' => if decide (c = "/"%char) then [] else c :: until_slash r'
  | [] => []
  end.

Definition basename (p : string) : string :=
  string_of_list_ascii
    (reverse (until_slash (skip_slashes (reverse (list_ascii_of_string p))))).

Definition noDynamicRegistration : json :=
  JObj [("dynamicRegistration", JBool false)]%string.

(** The [initParams] object of [startServer]. *)
Definition initParams (processId : Z) (workspaceUri : string) : json :=
  JObj [
    ("processId", JNum processId);
    ("rootUri", JStr workspaceUri);
    ("capabilities", JObj [
      ("textDocument", JObj [
        ("synchronization", JObj [
          ("dynamicRegistration", JBool false);
          ("willSave", JBool false);
          ("willSaveWaitUntil", JBool false);
          ("didSave", JBool false)]);
        ("completion", JObj [
          ("dynamicRegistration", JBool false);
          ("completionItem", JObj [
            ("snippetSupport", JBool true);
            ("commitCharactersSupport", JBool false);
            ("documentationFormat", JArr [JStr "plaintext"; JStr "markdown"]);
            ("deprecatedSupport", JBool false);
            ("preselectSupport", JBool false)]);
          ("contextSupport", JBool false)]);
        ("hover", JObj [
          ("dynamicRegistration", JBool false);
          ("contentFormat", JArr [JStr "plaintext"; JStr "markdown"])]);
        ("signatureHelp", noDynamicRegistration);
        ("references", noDynamicRegistration);
        ("documentHighlight", noDynamicRegistration);
        ("documentSymbol", JObj [
          ("dynamicRegistration", JBool false);
          ("hierarchicalDocumentSymbolSupport", JBool false)]);
        ("formatting", noDynamicRegistration);
        ("rangeFormatting", noDynamicRegistration);
        ("onTypeFormatting", noDynamicRegistration);
        ("definition", noDynamicRegistration);
        ("codeAction", noDynamicRegistration);
        ("codeLens", noDynamicRegistration);
        ("documentLink", noDynamicRegistration);
        ("rename", noDynamicRegistration)]);
      ("workspace", JObj [
        ("applyEdit", JBool false);
        ("workspaceEdit", JObj [("documentChanges", JBool false)]);
        ("didChangeConfiguration", noDynamicRegistration);
        ("didChangeWatchedFiles", noDynamicRegistration);
        ("symbol", noDynamicRegistration);
        ("executeCommand", noDynamicRegistration);
        ("workspaceFolders", JBool false);
        ("configuration", JBool false)])]);
    ("workspaceFolders", JArr [
      JObj [("uri", JStr workspaceUri); ("name", JStr (basename workspaceUri))]])
  ]%string.

(** The last segment of [stopServer], after the try/catch around the
    shutdown handshake: it acts on the [server] object captured at the start
    of the call and on the registry as it is when the segment runs. *)
Definition stopServer_finish (serverId : string) (server : LSPServerInfo) : Task unit :=
  fun m =>
    (with_servers (delete serverId) (kill (process server) (dispose (connection server) m)),
     Fulfilled tt).

Definition stopServer (serverId : string) : Task unit :=
  fun m =>
    match servers m !! serverId with
    | None => (m, Rejected (SessionNotFound serverId))
    | Some server =>
        try_sendRequest (connection server) "shutdown" JNull
          (fun _ =>
             try_sendNotification (connection server) "exit" JNull
               (stopServer_finish serverId server)
               (fun _ => stopServer_finish serverId server))
          (fun _ => stopServer_finish serverId server)
          m
    end.

(** The choice of the executable in [startServer]. An empty [customCommand]
    is falsy and counts as absent; [customArgs || []]. *)
Definition resolveCommand (language : string) (customCommand : option string)
    (customArgs : option (list string)) : error + (string * list string) :=
  match customCommand with
  | Some (String c rest) => inr (String c rest, default [] customArgs)
  | _ =>
      match languageServerCommands !! language with
      | None => inl (UnsupportedLanguage language)
      | Some serverConfig => inr serverConfig
      end
  end.

(** The catch block of [startServer]: [this.stopServer(serverId)] is called
    and its promise is not awaited, then [err] is rethrown. *)
Definition startServer_catch (serverId : string) (err : error) : Task string :=
  fun m =>
    let '(m', stopping) := stopServer serverId m in
    (m', Detached stopping (Rejected err)).

(** [serverInfo.initialized = true]: [serverInfo] is the object stored under
    [serverId], if that entry is still in the registry. *)
Definition startServer_initialized (serverId : string) : Task string :=
  fun m => (with_servers (alter (with_initialized true) serverId) m, Fulfilled serverId).

(** [startServer]. [serverId] is the value of [uuidv4()]. The 'error' and
    'exit' handlers it installs on the child process are [on_process_error]
    and [on_process_exit]; creating the connection and [connection.listen()]
    install no handler for incoming notifications ([on_notification]). *)
Definition startServer (serverId : string) (language workspaceUri : string)
    (customCommand : option string) (customArgs : option (list string)) : Task string :=
  fun m =>
    match resolveCommand language customCommand customArgs with
    | inl e => (m, Rejected e)
    | inr (command, args) =>
        let serverProcess := length (spawned m) in
        let m1 := spawn command args m in
        let serverInfo :=
          {| id := serverId; language := language; workspaceUri := workspaceUri;
             process := serverProcess; connection := serverProcess;
             documents := ∅; initialized := false |} in
        let m2 := with_servers (insert serverId serverInfo) m1 in
        try_sendRequest serverProcess "initialize" (initParams (pid m) workspaceUri)
          (fun _ =>
             try_sendNotification serverProcess "initialized" (JObj [])
               (startServer_initialized serverId)
               (startServer_catch serverId))
          (startServer_catch serverId)
          m2
    end.

(** [stopAllServers]: [ids] is [Array.from(this.servers.keys())], the keys
    in the order the Map yields them. Each [stopServer(id)] runs to its first
    suspension before the next one starts; the result is the list of
    promises given to [Promise.all]. *)
Definition stopAllServers (ids : list string) (m : LSPManager)
  : LSPManager * list (Async unit) :=
  foldl (fun acc id =>
           let '(m', p) := stopServer id acc.1 in (m', acc.2 ++ [catch_log p]))
        (m, []) ids.

Definition getDiagnostics (serverId fileUri : string) : Task json :=
  fun m =>
    match servers m !! serverId with
    | None => (m, Rejected (SessionNotFound serverId))
    | Some server => (m, Fulfilled (JArr []))
    end.

(** The common shape of the seven request methods: look the server up,
    send one request, return its result, or null when sending or the
    request fails. *)
Definition request (serverId : string) (method : string) (params : json) : Task json :=
  fun m =>
    match servers m !! serverId with
    | None => (m, Rejected (SessionNotFound serverId))
    | Some server =>
        try_sendRequest (connection server) method params
          (fun result => ret result)
          (fun _ => ret JNull)
          m
    end.

Definition textDocument (fileUri : string) : string * json :=
  ("textDocument", JObj [("uri", JStr fileUri)])%string.

Definition position (line character : Z) : string * json :=
  ("position", JObj [("line", JNum line); ("character", JNum character)])%string.

Definition getCompletions (serverId fileUri : string) (line character : Z) : Task json :=
  request serverId "textDocument/completion"
    (JObj [textDocument fileUri; position line character]).

Definition getHover (serverId fileUri : string) (line character : Z) : Task json :=
  request serverId "textDocument/hover"
    (JObj [textDocument fileUri; position line character]).

Definition goToDefinition (serverId fileUri : string) (line character : Z) : Task json :=
  request serverId "textDocument/definition"
    (JObj [textDocument fileUri; position line character]).

Definition findReferences (serverId fileUri : string) (line character : Z)
    (includeDeclaration : bool) : Task json :=
  request serverId "textDocument/references"
    (JObj [textDocument fileUri; position line character;
           ("context", JObj [("includeDeclaration", JBool includeDeclaration)])]%string).

Definition renameSymbol (serverId fileUri : string) (line character : Z)
    (newName : string) : Task json :=
  request serverId "textDocument/rename"
    (JObj [textDocument fileUri; position line character; ("newName", JStr newName)]%string).

Definition formatDocument (serverId fileUri : string) : Task json :=
  request serverId "textDocument/formatting"
    (JObj [textDocument fileUri;
           ("options", JObj [("tabSize", JNum 2); ("insertSpaces", JBool true)])]%string).

Definition getDocumentSymbols (serverId fileUri : string) : Task json :=
  request serverId "textDocument/documentSymbol" (JObj [textDocument fileUri]).

(** [server.documents.set / delete]: [server] is the registry entry. *)
Definition set_document (serverId fileUri : string) (d : TextDocument)
    (m : LSPManager) : LSPManager :=
  with_servers (alter (with_documents (insert fileUri d)) serverId) m.

Definition delete_document (serverId fileUri : string) (m : LSPManager) : LSPManager :=
  with_servers (alter (with_documents (delete fileUri)) serverId) m.

Definition didOpen (fileUri languageId : string) (version : Z) (content : string) : json :=
  JObj [("textDocument", JObj [("uri", JStr fileUri); ("languageId", JStr languageId);
                               ("version", JNum version); ("text", JStr content)])]%string.

Definition didChange (fileUri : string) (version : Z) (content : string) : json :=
  JObj [("textDocument", JObj [("uri", JStr fileUri); ("version", JNum version)]);
        ("contentChanges", JArr [JObj [("text", JStr content)]])]%string.

Definition didClose (fileUri : string) : json := JObj [textDocument fileUri].

Definition openDocument (serverId fileUri content languageId : string) : Task unit :=
  fun m =>
    match servers m !! serverId with
    | None => (m, Rejected (SessionNotFound serverId))
    | Some server =>
        let document := TextDocument_create fileUri languageId 1 content in
        let m1 := set_document serverId fileUri document m in
        try_sendNotification (connection server) "textDocument/didOpen"
          (didOpen fileUri languageId 1 content) (ret tt) throw m1
    end.

Definition updateDocument (serverId fileUri content : string) : Task unit :=
  fun m =>
    match servers m !! serverId with
    | None => (m, Rejected (SessionNotFound serverId))
    | Some server =>
        match documents server !! fileUri with
        | None => (m, Rejected (DocumentNotOpen fileUri))
        | Some document =>
            let newVersion := version document + 1 in
            let newDocument :=
              TextDocument_create fileUri (languageId document) newVersion content in
            let m1 := set_document serverId fileUri newDocument m in
            try_sendNotification (connection server) "textDocument/didChange"
              (didChange fileUri newVersion content) (ret tt) throw m1
        end
    end.

Definition closeDocument (serverId fileUri : string) : Task unit :=
  fun m =>
    match servers m !! serverId with
    | None => (m, Rejected (SessionNotFound serverId))
    | Some server =>
        match documents server !! fileUri with
        | None => (m, Rejected (DocumentNotOpen fileUri))
        | Some document =>
            let m1 := delete_document serverId fileUri m in
            try_sendNotification (connection server) "textDocument/didClose"
              (didClose fileUri) (ret tt) throw m1
        end
    end.

(** [listServers]: one entry per registered session. The source yields them
    in the order the sessions were registered; the registry of the model
    keeps no order, so only what does not depend on the order is stated of
    this list. *)
Definition listServers (m : LSPManager) : list (string * string * string * bool) :=
  (fun s => (id s, language s, workspaceUri s, initialized s)) <$> (map_to_list (servers m)).*2.

(** ** Running calls *)

(** The promise a suspended call waits on settles with [o], nothing else
    having run since the call was suspended. *)
Definition resume {R} (o : settle) (x : LSPManager * Async R) : LSPManager * Async R :=
  match x.2 with
  | Pending _ k => k o x.1
  | _ => x
  end.

(** What the caller of an awaited call sees. *)
Fixpoint foreground {R} (a : Async R) : Async R :=
  match a with
  | Detached _ fg => foreground fg
  | _ => a
  end.

(** [await t] by a caller, with the one promise [t] waits on settling with
    [o]: the state and the value when the call is fulfilled. *)
Definition accepted {R} (t : Task R) (o : settle) (m : LSPManager) : option (LSPManager * R) :=
  match resume o (t m) with
  | (m', Fulfilled r) => Some (m', r)
  | _ => None
  end.

(** One awaited [updateDocument] per entry of [cs], each with the new
    content and the way its notification settles; [None] as soon as a call
    is not fulfilled. *)
Fixpoint updateAll (serverId fileUri : string) (cs : list (string * settle))
    (m : LSPManager) : option LSPManager :=
  match cs with
  | [] => Some m
  | (content, o) :: cs' =>
      match accepted (updateDocument serverId fileUri content) o m with
      | Some (m', _) => updateAll serverId fileUri cs' m'
      | None => None
      end
  end.

(** A call that, however its awaited promises settle and whatever state it is
    resumed in, is fulfilled after finitely many resumptions and never
    rejected, with [Q] holding of the state it leaves and of its value. *)
Inductive completes {R} (Q : LSPManager → R → Prop) : LSPManager * Async R → Prop :=
| completes_now m r : Q m r → completes Q (m, Fulfilled r)
| completes_later m c k :
    (∀ o m', completes Q (k o m')) → completes Q (m, Pending c k).

(** A call that only ever removes registry entries and, when fulfilled,
    leaves no entry under [serverId]. *)
Inductive stopping (serverId : string) : LSPManager * Async unit → Prop :=
| stopping_done m u : servers m !! serverId = None → stopping serverId (m, Fulfilled u)
| stopping_wait m c k :
    (∀ o m', dom (servers (k o m').1) ⊆ dom (servers m')) →
    (∀ o m', stopping serverId (k o m')) →
    stopping serverId (m, Pending c k).

(** What can happen while the promises of [stopAllServers] are pending. *)
Inductive event : Type :=
| Settled (i : nat) (o : settle)
| ProcessExit (serverId : string)
| ProcessError (serverId : string)
| ConnectionClose (c : nat)
| Pushed (c : nat) (method : string) (params : json).

Definition step (x : LSPManager * list (Async unit)) (e : event)
  : LSPManager * list (Async unit) :=
  match e with
  | Settled i o =>
      match x.2 !! i with
      | Some (Pending _ k) => let '(m', a) := k o x.1 in (m', <[i := a]> x.2)
      | _ => x
      end
  | ProcessExit serverId => (on_process_exit serverId x.1, x.2)
  | ProcessError serverId => (on_process_error serverId x.1, x.2)
  | ConnectionClose c => (on_connection_close c x.1, x.2)
  | Pushed c method params => (on_notification c method params x.1, x.2)
  end.

Definition run (es : list event) (x : LSPManager * list (Async unit))
  : LSPManager * list (Async unit) :=
  foldl step x es.

(** [Promise.all(ps)]: rejected when one of the promises is, fulfilled
    when all are, pending ([None]) otherwise. *)
Fixpoint Promise_all (ps : list (Async unit)) : option (error + unit) :=
  match ps with
  | [] => Some (inr tt)
  | p :: ps' =>
      match foreground p with
      | Rejected e => Some (inl e)
      | Fulfilled _ => Promise_all ps'
      | _ =>
          match Promise_all ps' with
          | Some (inl e) => Some (inl e)
          | _ => None
          end
      end
  end.

(** The notifications [n] accepted updates hand to connection [c], the
    first one carrying version [v + 1]. *)
Definition didChanges (c : nat) (fileUri : string) (v : Z) (contents : list string)
  : list (nat * Message) :=
  imap (fun k content =>
          (c, Notification "textDocument/didChange"
                (didChange fileUri (v + 1 + Z.of_nat k) content)))
       contents.

(** A request method that answers null when its request cannot be sent or
    fails, and leaves the registry as it is. *)
Definition null_on_failure (t : Task json) (m : LSPManager) : Prop :=
  servers (t m).1 = servers m
  ∧ match (t m).2 with
    | Fulfilled r => r = JNull
    | Pending _ k => ∀ cause m', k (Reject cause) m' = (m', Fulfilled JNull)
    | _ => False
    end.

(** A request method that is never rejected and that, when connection [c]
    accepts messages, hands it the request [method] with [params] and waits
    for the answer. *)
Definition sent_unchecked (t : Task json) (c : nat) (method : string) (params : json)
    (m : LSPManager) : Prop :=
  completes (fun _ _ => True) (t m)
  ∧ (throwIfClosedOrDisposed c m = None →
     (t m).1 = transmit c (Request method params) m
     ∧ ∃ k, (t m).2 = Pending (c, Request method params) k).

(** The calls started by [stopAllServers] stand in this relation to the
    identifiers they were started for. *)
Definition sweeping (ids : list string) (x : LSPManager * list (Async unit)) : Prop :=
  Forall2 (fun serverId p => stopping serverId (x.1, p)) ids x.2.

(** ** Sample states *)

Definition idle : LSPManager :=
  {| servers := ∅; pid := 4242; spawned := []; sent := []; closed := [];
     disposed := []; killed := [] |}.

Definition session (serverId : string) (handle : nat) (docs : gmap string TextDocument)
  : LSPServerInfo :=
  {| id := serverId; language := "typescript"; workspaceUri := "file:///tmp/proj";
     process := handle; connection := handle; documents := docs; initialized := true |}.

(** One initialized session ["s1"] with no open document. *)
Definition one_session : LSPManager :=
  {| servers := {[ "s1"%string := session "s1" 0 ∅ ]}; pid := 4242;
     spawned := [("typescript-language-server", ["--stdio"])]%string;
     sent := []; closed := []; disposed := []; killed := [] |}.

(** Session ["s1"] with file:///tmp/proj/a.ts open, updated twice. *)
Definition one_document : LSPManager :=
  {| servers :=
       {[ "s1"%string :=
            session "s1" 0
              {[ "file:///tmp/proj/a.ts"%string :=
                   TextDocument_create "file:///tmp/proj/a.ts" "typescript" 3 "let x = 3;" ]} ]};
     pid := 4242;
     spawned := [("typescript-language-server", ["--stdio"])]%string;
     sent := []; closed := []; disposed := []; killed := [] |}.

(** Two sessions; the connection of ["s2"] has closed. *)
Definition two_sessions : LSPManager :=
  {| servers := {[ "s1"%string := session "s1" 0 ∅; "s2"%string := session "s2" 1 ∅ ]};
     pid := 4242;
     spawned := [("typescript-language-server", ["--stdio"]); ("pylsp", [])]%string;
     sent := []; closed := [1%nat]; disposed := []; killed := [] |}.

Definition a_diagnostic : json :=
  JObj [("message", JStr "Type 'string' is not assignable to type 'number'.");
        ("severity", JNum 1)]%string.

(** A segment that at most removes registry entries and keeps every record
    of what was sent, disposed and killed. *)
Definition grows (m m' : LSPManager) : Prop :=
  dom (servers m') ⊆ dom (servers m)
  ∧ (∀ x, x ∈ sent m → x ∈ sent m')
  ∧ (∀ c, c ∈ disposed m → c ∈ disposed m')
  ∧ (∀ p, p ∈ killed m → p ∈ killed m').

(** A stop of the session [server] registered under [serverId] that is under
    way: while it waits, the shutdown request has been handed to the
    session's connection; when it is fulfilled, the entry is gone, the
    process has been killed and the connection disposed. Its segments only
    grow the records and shrink the registry. *)
Inductive stops (serverId : string) (server : LSPServerInfo)
  : LSPManager * Async unit → Prop :=
| stops_done m u :
    servers m !! serverId = None →
    process server ∈ killed m →
    connection server ∈ disposed m →
    stops serverId server (m, Fulfilled u)
| stops_wait m c k :
    (connection server, Request "shutdown" JNull) ∈ sent m →
    (∀ o m', grows m' (k o m').1) →
    (∀ o m', (connection server, Request "shutdown" JNull) ∈ sent m' →
             stops serverId server (k o m')) →
    stops serverId server (m, Pending c k).

(** The stops started by [stopAllServers] for the sessions of [registry]. *)
Definition stopping_all (registry : gmap string LSPServerInfo) (ids : list string)
    (x : LSPManager * list (Async unit)) : Prop :=
  Forall2 (fun serverId p =>
             ∃ server, registry !! serverId = Some server
                       ∧ stops serverId server (x.1, p))
          ids x.2.

(** ** Segments, frames and invariants *)

(** [new LSPManager()] in a process with identifier [pid]: an empty
    registry; nothing has been spawned, sent, closed, disposed or killed. *)
Definition new_LSPManager (pid : Z) : LSPManager :=
  {| servers := ∅; pid := pid; spawned := []; sent := []; closed := [];
     disposed := []; killed := [] |}.

(** [segments P R m x]: [x] is what a segment started in state [m] has
    produced, the state it leaves is related to [m] by [P], and the same
    holds of every later segment of the call, and of every segment of a call
    it detached, from whatever state that segment is resumed in. *)
Inductive segments (P : LSPManager → LSPManager → Prop)
  : ∀ R : Type, LSPManager → LSPManager * Async R → Prop :=
| segments_fulfilled R m m' (r : R) :
    P m m' → segments P R m (m', Fulfilled r)
| segments_rejected R m m' e :
    P m m' → segments P R m (m', Rejected e)
| segments_pending R m m' c k :
    P m m' →
    (∀ o m1, segments P R m1 (k o m1)) →
    segments P R m (m', Pending c k)
| segments_detached R m m' bg fg :
    segments P unit m (m', bg) →
    segments P R m (m', fg) →
    segments P R m (m', Detached bg fg).

(** The shape of the registry that the manager maintains: a session is
    stored under its own identifier; its process and its connection were
    created by one spawn that is on record; two sessions never share a
    process; a Document State is stored under its own URI and its version is
    at least 1. *)
Record well_formed (m : LSPManager) : Prop := {
  wf_id : ∀ k s, servers m !! k = Some s → id s = k;
  wf_handle : ∀ k s, servers m !! k = Some s →
    connection s = process s ∧ (process s < length (spawned m))%nat;
  wf_distinct : ∀ k1 k2 s1 s2,
    servers m !! k1 = Some s1 → servers m !! k2 = Some s2 →
    process s1 = process s2 → k1 = k2;
  wf_documents : ∀ k s u d,
    servers m !! k = Some s → documents s !! u = Some d → uri d = u ∧ 1 ≤ version d
}.

(** A segment that keeps the registry well formed. *)
Definition keeps_well_formed (m m' : LSPManager) : Prop :=
  well_formed m → well_formed m'.

(** What a segment of [stopServer a], for the session record [sa] it
    captured, may change: the registry entry under [a]; the connection of
    [sa], by a message or by disposing it; the process of [sa], by killing
    it. Nothing is spawned. *)
Definition stop_footprint (a : string) (sa : LSPServerInfo) (m m' : LSPManager) : Prop :=
  (∀ k, k ≠ a → servers m' !! k = servers m !! k)
  ∧ spawned m' = spawned m
  ∧ closed m' = closed m
  ∧ (sent m' = sent m ∨ ∃ msg, sent m' = sent m ++ [(connection sa, msg)])
  ∧ (disposed m' = disposed m ∨ disposed m' = connection sa :: disposed m)
  ∧ (killed m' = killed m ∨ killed m' = process sa :: killed m).

(** What a segment of a document method on document [fileUri] of session
    [serverId], whose connection is [c], may change: the Document State
    under [fileUri] in that session, and the messages handed to [c], by one
    more. *)
Definition document_footprint (serverId fileUri : string) (c : nat)
    (m m' : LSPManager) : Prop :=
  (∀ k, k ≠ serverId → servers m' !! k = servers m !! k)
  ∧ (∀ s, servers m !! serverId = Some s →
       ∃ s', servers m' !! serverId = Some s'
             ∧ id s' = id s ∧ language s' = language s
             ∧ workspaceUri s' = workspaceUri s
             ∧ process s' = process s ∧ connection s' = connection s
             ∧ initialized s' = initialized s
             ∧ ∀ u, u ≠ fileUri → documents s' !! u = documents s !! u)
  ∧ (servers m !! serverId = None → servers m' !! serverId = None)
  ∧ spawned m' = spawned m ∧ closed m' = closed m
  ∧ disposed m' = disposed m ∧ killed m' = killed m
  ∧ (sent m' = sent m ∨ ∃ msg, sent m' = sent m ++ [(c, msg)]).

(** What the environment answers to a request, as the caller of a request
    method gets it: the result, or null when the request failed. *)
Definition answer (o : settle) : json :=
  match o with
  | Resolve result => result
  | Reject _ => JNull
  end.

(** A request method that changes nothing but the messages handed to
    connection [c], by the one request [msg], and hands the answer on as it
    is, touching nothing in the state it is resumed in. *)
Definition passes_through (t : Task json) (c : nat) (msg : Message) (m : LSPManager)
  : Prop :=
  match (t m).2 with
  | Fulfilled r => r = JNull ∧ (t m).1 = m ∧ throwIfClosedOrDisposed c m ≠ None
  | Pending awaiting k =>
      awaiting = (c, msg) ∧ (t m).1 = transmit c msg m
      ∧ ∀ o m', k o m' = (m', Fulfilled (answer o))
  | _ => False
  end.

(** The manager after two calls of [startServer], for typescript and for
    python, each at its first suspension. *)
Definition started_twice : LSPManager :=
  (startServer "s2" "python" "file:///tmp/proj" None None
     (startServer "s1" "typescript" "file:///tmp/proj" None None idle).1).1.

(** The entry [startServer] stores before the handshake. *)
Definition registered (serverId language workspaceUri : string) (handle : nat)
  : LSPServerInfo :=
  {| id := serverId; language := language; workspaceUri := workspaceUri;
     process := handle; connection := handle; documents := ∅; initialized := false |}.

(** How [startServer] ends when its handshake fails with [err] in a segment
    resumed in state [m1]: it is rejected with [err], having started a stop
    of the session that nobody awaits. If the session is still registered,
    that stop ends, however its own handshake goes, with the session
    removed, its process killed and its connection disposed. If it is not
    (its process has exited meanwhile), the stop is itself rejected with
    SessionNotFound, a rejection that nobody handles, and the state is left
    as it is. *)
Definition handshake_failed (serverId : string) (err : error) (m1 : LSPManager)
    (x : LSPManager * Async string) : Prop :=
  ∃ stop, x.2 = Detached stop (Rejected err)
    ∧ match servers m1 !! serverId with
      | Some server =>
          completes
            (fun m' _ =>
               servers m' !! serverId = None
               ∧ process server ∈ killed m'
               ∧ connection server ∈ disposed m')
            (x.1, stop)
      | None => x.1 = m1 ∧ stop = Rejected (SessionNotFound serverId)
      end.

(** The promise a suspended call waits on settles with [o] when the state
    has become [m1]. *)
Definition resume_in {R} (o : settle) (m1 : LSPManager) (a : Async R)
  : LSPManager * Async R :=
  match a with
  | Pending _ k => k o m1
  | _ => (m1, a)
  end.

(** ** FileSystemManager: the URI conversions (src/filesystem-manager.ts) *)

(** A JavaScript string is modelled by the bytes of its UTF-8 encoding, so
    that a character outside ASCII is the two to four bytes that [encodeURI]
    escapes and [decodeURIComponent] reassembles. A string with a lone
    surrogate has no UTF-8 encoding: it is modelled by bytes that are not
    UTF-8, and [encodeURI] throws on it. *)

(** The characters [encodeURI] leaves as they are: letters, digits, the
    marks [-_.!~*'()], the reserved characters [;/?:@&=+$,] and [#]. *)
Definition uriUnescaped (c : ascii) : bool :=
  let n := N_of_ascii c in
  ((65 <=? n) && (n <=? 90) || (97 <=? n) && (n <=? 122) || (48 <=? n) && (n <=? 57)
   || bool_decide (c ∈ list_ascii_of_string "-_.!~*'();/?:@&=+$,#"))%N.

Definition hexDigit (n : N) : ascii :=
  if (n <? 10)%N then ascii_of_N (48 + n) else ascii_of_N (55 + n).

(** [%XX] with upper-case hexadecimal digits. *)
Definition percentEncode (c : ascii) : list ascii :=
  ["%"%char; hexDigit (N_of_ascii c / 16); hexDigit (N_of_ascii c mod 16)].

(** The number of leading 1 bits of an octet, 5 standing for five or more. *)
Definition leadingOnes (b : N) : nat :=
  if (b <? 128)%N then 0
  else if (b <? 192)%N then 1
  else if (b <? 224)%N then 2
  else if (b <? 240)%N then 3
  else if (b <? 248)%N then 4
  else 5.

Definition continuation (b : N) : bool := ((128 <=? b) && (b <=? 191))%N.

(** The octets that are the UTF-8 encoding of one code point outside
    ASCII: no overlong form, no surrogate, nothing above U+10FFFF. *)
Definition wellFormedOctets (octets : list ascii) : bool :=
  match N_of_ascii <$> octets with
  | [b0; b1] => ((194 <=? b0) && (b0 <=? 223))%N && continuation b1
  | [b0; b1; b2] =>
      ((b0 =? 224) && (160 <=? b1) && (b1 <=? 191)
       || (225 <=? b0) && (b0 <=? 236) && continuation b1
       || (b0 =? 237) && (128 <=? b1) && (b1 <=? 159)
       || (238 <=? b0) && (b0 <=? 239) && continuation b1)%N
      && continuation b2
  | [b0; b1; b2; b3] =>
      ((b0 =? 240) && (144 <=? b1) && (b1 <=? 191)
       || (241 <=? b0) && (b0 <=? 243) && continuation b1
       || (b0 =? 244) && (128 <=? b1) && (b1 <=? 143))%N
      && continuation b2 && continuation b3
  | _ => false
  end.

Definition encodeURI_bytes (s : list ascii) : list ascii :=
  c ← s; if uriUnescaped c then [c] else percentEncode c.

(** The string has no lone surrogate. A string that has one is modelled by
    bytes that are not UTF-8 (the surrogate as three bytes, which are not
    well-formed octets); the test is written on the bytes, with
    [leadingOnes] and [wellFormedOctets] below. *)
Fixpoint isWellFormed (s : list ascii) : bool :=
  match s with
  | [] => true
  | c :: rest =>
      match leadingOnes (N_of_ascii c), rest with
      | 0%nat, _ => isWellFormed rest
      | 2%nat, b1 :: rest' => wellFormedOctets [c; b1] && isWellFormed rest'
      | 3%nat, b1 :: b2 :: rest' => wellFormedOctets [c; b1; b2] && isWellFormed rest'
      | 4%nat, b1 :: b2 :: b3 :: rest' =>
          wellFormedOctets [c; b1; b2; b3] && isWellFormed rest'
      | _, _ => false
      end
  end.

(** [encodeURI]; [None] is the URIError it throws on a string with a lone
    surrogate. *)
Definition encodeURI (s : string) : option string :=
  if isWellFormed (list_ascii_of_string s)
  then Some (string_of_list_ascii (encodeURI_bytes (list_ascii_of_string s)))
  else None.

(** The value of a hexadecimal digit, of either case. *)
Definition hexValue (c : ascii) : option N :=
  let n := N_of_ascii c in
  if ((48 <=? n) && (n <=? 57))%N then Some (n - 48)%N
  else if ((65 <=? n) && (n <=? 70))%N then Some (n - 55)%N
  else if ((97 <=? n) && (n <=? 102))%N then Some (n - 87)%N
  else None.

(** [decodeURIComponent]; [None] is the URIError it throws. [wanted] is the
    number of escaped octets still to come for the code point whose first
    octets are [octets]; between code points it is 0. An escape needs two
    hexadecimal digits; an octet that starts a code point says how many
    octets it has; the octets that follow must be escapes too, and together
    they must be well formed. *)
Fixpoint decodeURIComponent_bytes (wanted : nat) (octets : list ascii) (s : list ascii)
  : option (list ascii) :=
  match s with
  | [] => if wanted is O then Some [] else None
  | c :: rest =>
      if decide (c = "%"%char) then
        match rest with
        | h :: l :: rest' =>
            match hexValue h, hexValue l with
            | Some hi, Some lo =>
                let b := ascii_of_N (16 * hi + lo) in
                match wanted with
                | O =>
                    match leadingOnes (16 * hi + lo) with
                    | 0%nat => cons b <$> decodeURIComponent_bytes 0 [] rest'
                    | 2%nat => decodeURIComponent_bytes 1 [b] rest'
                    | 3%nat => decodeURIComponent_bytes 2 [b] rest'
                    | 4%nat => decodeURIComponent_bytes 3 [b] rest'
                    | _ => None
                    end
                | S O =>
                    if wellFormedOctets (octets ++ [b])
                    then app (octets ++ [b]) <$> decodeURIComponent_bytes 0 [] rest'
                    else None
                | S wanted' => decodeURIComponent_bytes wanted' (octets ++ [b]) rest'
                end
            | _, _ => None
            end
        | _ => None
        end
      else
        match wanted with
        | O => cons c <$> decodeURIComponent_bytes 0 [] rest
        | S _ => None
        end
  end.

Definition decodeURIComponent (s : string) : option string :=
  string_of_list_ascii <$> decodeURIComponent_bytes 0 [] (list_ascii_of_string s).

(** [filePath.replace(/\\/g, '/')]. *)
Definition slashes (s : list ascii) : list ascii :=
  (fun c => if decide (c = "\"%char) then "/"%char else c) <$> s.

(** [normalizeUri]; [None] when [decodeURIComponent] throws. *)
Definition normalizeUri (uri : string) : option string :=
  if String.prefix "file://" uri
  then decodeURIComponent (string_of_list_ascii (drop 7 (list_ascii_of_string uri)))
  else Some uri.

(** [pathToUri]; [None] when [encodeURI] throws. *)
Definition pathToUri (filePath : string) : option string :=
  let normalized := string_of_list_ascii (slashes (list_ascii_of_string filePath)) in
  String.append "file://" <$> encodeURI normalized.

(** The byte strings that are UTF-8: what a JavaScript string without lone
    surrogates is modelled by, and what [isWellFormed] accepts. *)
Inductive utf8 : list ascii → Prop :=
| utf8_nil : utf8 []
| utf8_ascii c s : (N_of_ascii c < 128)%N → utf8 s → utf8 (c :: s)
| utf8_octets octets s : wellFormedOctets octets = true → utf8 s → utf8 (octets ++ s).

(** * Properties *)

(** ** Starting a session *)

Lemma languageServerCommands_unlisted (language : string) :
  language ∉ ["typescript"; "python"; "rust"; "go"; "java"; "cpp"]%string →
  languageServerCommands !! language = None.
Proof. intros Hnot. apply not_elem_of_list_to_map_1. exact Hnot. Qed.

(** C3: a language outside the default table (typescript, python, rust, go,
    java, cpp), started without a custom command, is refused with
    UnsupportedLanguage; the call ends in the state it started in, so nothing
    was spawned and the registry is unchanged. *)
Theorem startServer_unsupported_language
    (serverId language workspaceUri : string) (customArgs : option (list string))
    (m : LSPManager) :
  language ∉ ["typescript"; "python"; "rust"; "go"; "java"; "cpp"]%string →
  startServer serverId language workspaceUri None customArgs m
    = (m, Rejected (UnsupportedLanguage language))
  ∧ spawned (startServer serverId language workspaceUri None customArgs m).1 = spawned m
  ∧ servers (startServer serverId language workspaceUri None customArgs m).1 = servers m.
Proof.
  intros Hnot. unfold startServer, resolveCommand.
  rewrite (languageServerCommands_unlisted _ Hnot). done.
Qed.

(** An empty custom command counts as none. *)
Example startServer_empty_custom_command :
  startServer "7d0f" "cobol" "file:///tmp/proj" (Some "") (Some ["--stdio"]%string) idle
  = (idle, Rejected (UnsupportedLanguage "cobol")).
Proof. reflexivity. Qed.

(** With a custom command the table is not consulted. *)
Example startServer_custom_command :
  let x := startServer "7d0f" "cobol" "file:///tmp/proj" (Some "cobol-lsp") None idle in
  spawned x.1 = [("cobol-lsp", [])]%string
  ∧ initialized <$> servers x.1 !! "7d0f"%string = Some false.
Proof. split; reflexivity. Qed.

(** A handshake that succeeds marks the session initialized. *)
Example startServer_handshake :
  let x := resume (Resolve JNull) (resume (Resolve (JObj []))
             (startServer "7d0f" "python" "file:///tmp/proj" None None idle)) in
  x.2 = Fulfilled "7d0f"%string
  ∧ initialized <$> servers x.1 !! "7d0f"%string = Some true
  ∧ spawned x.1 = [("pylsp", [])]%string
  ∧ sent x.1 = [(0%nat, Request "initialize" (initParams 4242 "file:///tmp/proj"));
                (0%nat, Notification "initialized" (JObj []))].
Proof. repeat split; reflexivity. Qed.

Lemma startServer_unsupported_language_witness :
  startServer "7d0f" "cobol" "file:///tmp/proj" None None idle
    = (idle, Rejected (UnsupportedLanguage "cobol"))
  ∧ spawned (startServer "7d0f" "cobol" "file:///tmp/proj" None None idle).1 = []
  ∧ servers (startServer "7d0f" "cobol" "file:///tmp/proj" None None idle).1 = ∅.
Proof.
  apply (startServer_unsupported_language "7d0f" "cobol" "file:///tmp/proj" None idle).
  vm_compute. intros H. repeat (apply elem_of_cons in H as [H|H]; [discriminate H|]).
  by apply elem_of_nil in H.
Defined.

(** ** Diagnostics *)

Lemma getDiagnostics_registered (serverId fileUri : string) (server : LSPServerInfo)
    (m : LSPManager) :
  servers m !! serverId = Some server →
  getDiagnostics serverId fileUri m = (m, Fulfilled (JArr [])).
Proof. intros Hs. unfold getDiagnostics. by rewrite Hs. Qed.

Lemma getDiagnostics_unknown (serverId fileUri : string) (m : LSPManager) :
  servers m !! serverId = None →
  getDiagnostics serverId fileUri m = (m, Rejected (SessionNotFound serverId)).
Proof. intros Hs. unfold getDiagnostics. by rewrite Hs. Qed.

(** Whatever the subprocess has pushed for a document, the answer for a
    registered session is the empty array. *)
Lemma getDiagnostics_ignores_push (serverId fileUri : string) (server : LSPServerInfo)
    (c : nat) (pushed : list json) (m : LSPManager) :
  servers m !! serverId = Some server →
  getDiagnostics serverId fileUri (publishDiagnostics c fileUri pushed m)
    = (m, Fulfilled (JArr [])).
Proof. apply getDiagnostics_registered. Qed.

(** C1: the language server of session s1 pushes one diagnostic for
    file:///tmp/proj/a.ts; getDiagnostics for that document then answers with
    the empty array, not with the pushed diagnostic. *)
Theorem getDiagnostics_drops_pushed_diagnostics :
  getDiagnostics "s1" "file:///tmp/proj/a.ts"
      (publishDiagnostics 0 "file:///tmp/proj/a.ts" [a_diagnostic] one_session)
    = (one_session, Fulfilled (JArr []))
  ∧ JArr [] ≠ JArr [a_diagnostic].
Proof. split; [reflexivity | discriminate]. Qed.

(** ** A handshake that fails *)

(** When the initialize request is rejected while the session is still
    registered and its connection open, [startServer] rejects with the cause
    and the registry still holds the session: the stop it started is waiting
    for the answer to its shutdown request. *)
Lemma startServer_catch_pending (serverId : string) (err : error) (server : LSPServerInfo)
    (m : LSPManager) :
  servers m !! serverId = Some server →
  throwIfClosedOrDisposed (connection server) m = None →
  ∃ k, startServer_catch serverId err m
       = (transmit (connection server) (Request "shutdown" JNull) m,
          Detached (Pending (connection server, Request "shutdown" JNull) k) (Rejected err))
     ∧ ∀ cause m', k (Reject cause) m' = stopServer_finish serverId server m'.
Proof.
  intros Hs Hopen. unfold startServer_catch, stopServer, try_sendRequest.
  rewrite Hs, Hopen. eexists. split; [reflexivity | done].
Qed.

(** C2: session 7d0f is started for typescript from the idle manager and the
    subprocess rejects the initialize request. [startServer] rejects with that
    cause, yet the session is still in the registry, not initialized, and a
    lookup of its identifier succeeds: the stop call was started and not
    awaited. The entry goes only once the shutdown handshake has settled. *)
Theorem startServer_failed_handshake_keeps_session :
  let x := resume (Reject "initialize failed")
             (startServer "7d0f" "typescript" "file:///tmp/proj" None None idle) in
  foreground x.2 = Rejected (ProtocolFailure "initialize failed")
  ∧ initialized <$> servers x.1 !! "7d0f"%string = Some false
  ∧ getDiagnostics "7d0f" "file:///tmp/proj/a.ts" x.1 = (x.1, Fulfilled (JArr []))
  ∧ killed x.1 = []
  ∧ match x.2 with
    | Detached stopping _ =>
        ∀ o o', servers (resume o' (resume o (x.1, stopping))).1 !! "7d0f"%string = None
    | _ => False
    end.
Proof.
  vm_compute. repeat split. intros [v|cause] [v'|cause']; reflexivity.
Qed.

(** ** Documents *)

Lemma servers_set_document (serverId fileUri : string) (d : TextDocument)
    (server : LSPServerInfo) (m : LSPManager) :
  servers m !! serverId = Some server →
  servers (set_document serverId fileUri d m) !! serverId
    = Some (with_documents (insert fileUri d) server).
Proof. intros Hs. unfold set_document. simpl. by rewrite lookup_alter_eq, Hs. Qed.

Lemma servers_delete_document (serverId fileUri : string) (server : LSPServerInfo)
    (m : LSPManager) :
  servers m !! serverId = Some server →
  servers (delete_document serverId fileUri m) !! serverId
    = Some (with_documents (delete fileUri) server).
Proof. intros Hs. unfold delete_document. simpl. by rewrite lookup_alter_eq, Hs. Qed.

(** The first segment of [openDocument] on a registered session. *)
Lemma openDocument_registered (serverId fileUri content languageId : string)
    (server : LSPServerInfo) (m : LSPManager) :
  servers m !! serverId = Some server →
  let m1 := set_document serverId fileUri (TextDocument_create fileUri languageId 1 content) m in
  openDocument serverId fileUri content languageId m
  = try_sendNotification (connection server) "textDocument/didOpen"
      (didOpen fileUri languageId 1 content) (ret tt) throw m1.
Proof. intros Hs. unfold openDocument. by rewrite Hs. Qed.

Lemma updateDocument_open (serverId fileUri content : string)
    (server : LSPServerInfo) (d : TextDocument) (m : LSPManager) :
  servers m !! serverId = Some server →
  documents server !! fileUri = Some d →
  let m1 := set_document serverId fileUri
              (TextDocument_create fileUri (languageId d) (version d + 1) content) m in
  updateDocument serverId fileUri content m
  = try_sendNotification (connection server) "textDocument/didChange"
      (didChange fileUri (version d + 1) content) (ret tt) throw m1.
Proof. intros Hs Hd. unfold updateDocument. by rewrite Hs, Hd. Qed.

(** An awaited notification is fulfilled only if it was handed to the
    connection. *)
Lemma accepted_try_sendNotification (c : nat) (method : string) (params : json)
    (o : settle) (m m' : LSPManager) (r : unit) :
  accepted (try_sendNotification c method params (ret tt) throw) o m = Some (m', r) →
  m' = transmit c (Notification method params) m.
Proof.
  unfold accepted, resume, try_sendNotification.
  destruct (throwIfClosedOrDisposed c m); simpl; [discriminate |].
  destruct o; simpl; [| discriminate]. by intros [= <- _].
Qed.

Lemma accepted_ext {R} (t t' : Task R) (o : settle) (m m1 : LSPManager) :
  t m = t' m1 → accepted t o m = accepted t' o m1.
Proof. unfold accepted. by intros ->. Qed.

(** C5: on a registered session, updateDocument and closeDocument of a URI
    that has no Document State are refused with DocumentNotOpen and leave
    the manager, hence the session's document map, as it was; and after a
    document has been closed its URI is in that situation. *)
Theorem update_close_require_open_document
    (serverId fileUri content : string) (server : LSPServerInfo) (m : LSPManager) :
  servers m !! serverId = Some server →
  (documents server !! fileUri = None →
     updateDocument serverId fileUri content m = (m, Rejected (DocumentNotOpen fileUri))
     ∧ closeDocument serverId fileUri m = (m, Rejected (DocumentNotOpen fileUri)))
  ∧ (is_Some (documents server !! fileUri) →
     let m' := (closeDocument serverId fileUri m).1 in
     updateDocument serverId fileUri content m' = (m', Rejected (DocumentNotOpen fileUri))
     ∧ closeDocument serverId fileUri m' = (m', Rejected (DocumentNotOpen fileUri))).
Proof.
  intros Hs. split.
  - intros Hd. unfold updateDocument, closeDocument. by rewrite Hs, Hd.
  - intros [d Hd] m'.
    assert (Hm' : servers m' !! serverId = Some (with_documents (delete fileUri) server)).
    { unfold m', closeDocument, try_sendNotification. rewrite Hs, Hd.
      destruct (throwIfClosedOrDisposed _ _); simpl;
        by rewrite lookup_alter_eq, Hs. }
    unfold updateDocument, closeDocument. rewrite Hm'. simpl.
    by rewrite lookup_delete_eq.
Qed.

Lemma update_close_require_open_document_witness :
  (updateDocument "s1" "file:///tmp/proj/b.ts" "let y = 2;" one_document
     = (one_document, Rejected (DocumentNotOpen "file:///tmp/proj/b.ts"))
   ∧ closeDocument "s1" "file:///tmp/proj/b.ts" one_document
     = (one_document, Rejected (DocumentNotOpen "file:///tmp/proj/b.ts")))
  ∧ (let m' := (closeDocument "s1" "file:///tmp/proj/a.ts" one_document).1 in
     updateDocument "s1" "file:///tmp/proj/a.ts" "let x = 4;" m'
       = (m', Rejected (DocumentNotOpen "file:///tmp/proj/a.ts"))
     ∧ closeDocument "s1" "file:///tmp/proj/a.ts" m'
       = (m', Rejected (DocumentNotOpen "file:///tmp/proj/a.ts"))).
Proof.
  assert (Hs : servers one_document !! "s1"%string
               = Some (session "s1" 0
                         {[ "file:///tmp/proj/a.ts"%string :=
                              TextDocument_create "file:///tmp/proj/a.ts" "typescript" 3
                                "let x = 3;" ]}))
    by reflexivity.
  split.
  - destruct (update_close_require_open_document "s1" "file:///tmp/proj/b.ts" "let y = 2;"
                _ one_document Hs) as [Hnever _].
    apply Hnever. reflexivity.
  - destruct (update_close_require_open_document "s1" "file:///tmp/proj/a.ts" "let x = 4;"
                _ one_document Hs) as [_ Hclosed].
    apply Hclosed. eexists. reflexivity.
Defined.

(** The state a fulfilled [updateDocument] leaves. *)
Lemma accepted_updateDocument (serverId fileUri content : string) (o : settle)
    (server : LSPServerInfo) (d : TextDocument) (m m' : LSPManager) (r : unit) :
  servers m !! serverId = Some server →
  documents server !! fileUri = Some d →
  accepted (updateDocument serverId fileUri content) o m = Some (m', r) →
  m' = transmit (connection server)
         (Notification "textDocument/didChange" (didChange fileUri (version d + 1) content))
         (set_document serverId fileUri
            (TextDocument_create fileUri (languageId d) (version d + 1) content) m).
Proof.
  intros Hs Hd Hacc.
  pose proof (updateDocument_open _ _ content _ _ _ Hs Hd) as Hstep. simpl in Hstep.
  rewrite (accepted_ext (updateDocument serverId fileUri content) _ o m _ Hstep) in Hacc.
  by apply accepted_try_sendNotification in Hacc.
Qed.

Lemma accepted_openDocument (serverId fileUri content languageId : string) (o : settle)
    (server : LSPServerInfo) (m m' : LSPManager) (r : unit) :
  servers m !! serverId = Some server →
  accepted (openDocument serverId fileUri content languageId) o m = Some (m', r) →
  m' = transmit (connection server)
         (Notification "textDocument/didOpen" (didOpen fileUri languageId 1 content))
         (set_document serverId fileUri (TextDocument_create fileUri languageId 1 content) m).
Proof.
  intros Hs Hacc.
  pose proof (openDocument_registered serverId fileUri content languageId _ _ Hs) as Hstep.
  simpl in Hstep.
  rewrite (accepted_ext (openDocument serverId fileUri content languageId) _ o m _ Hstep)
    in Hacc.
  by apply accepted_try_sendNotification in Hacc.
Qed.

Lemma didChanges_cons (c : nat) (fileUri : string) (v : Z) (content : string)
    (contents : list string) :
  didChanges c fileUri v (content :: contents)
  = (c, Notification "textDocument/didChange" (didChange fileUri (v + 1) content))
      :: didChanges c fileUri (v + 1) contents.
Proof.
  unfold didChanges. simpl. f_equal.
  - by rewrite Z.add_0_r.
  - apply imap_ext. intros k content' _. simpl. do 3 f_equal. lia.
Qed.

Lemma last_cons_default {A} (x d : A) (l : list A) :
  List.last (x :: l) d = List.last l x.
Proof.
  revert x d. induction l as [| y l IH]; intros x d; [done |].
  change (List.last (y :: l) d = List.last (y :: l) x). by rewrite !IH.
Qed.

(** Accepted updates of a document at version [v]: each adds one. *)
Lemma updateAll_versions (serverId fileUri : string) (cs : list (string * settle)) :
  ∀ (server : LSPServerInfo) (d : TextDocument) (m m' : LSPManager),
    servers m !! serverId = Some server →
    documents server !! fileUri = Some d →
    uri d = fileUri →
    updateAll serverId fileUri cs m = Some m' →
    ∃ server',
      servers m' !! serverId = Some server'
      ∧ connection server' = connection server
      ∧ documents server' !! fileUri
        = Some (TextDocument_create fileUri (languageId d)
                  (version d + Z.of_nat (length cs)) (List.last cs.*1 (getText d)))
      ∧ sent m' = sent m ++ didChanges (connection server) fileUri (version d) cs.*1.
Proof.
  induction cs as [| [content o] cs IH]; intros server d m m' Hs Hd Huri Hrun.
  - injection Hrun as <-. exists server. split; [done |]. split; [done |]. split.
    + rewrite Hd. simpl. rewrite Z.add_0_r. destruct d. simpl in Huri. by subst.
    + simpl. by rewrite app_nil_r.
  - simpl in Hrun.
    destruct (accepted _ o m) as [[m1 r] |] eqn:Hacc; [| discriminate].
    apply (accepted_updateDocument _ _ _ _ _ _ _ _ _ Hs Hd) in Hacc.
    set (d1 := TextDocument_create fileUri (languageId d) (version d + 1) content) in *.
    assert (Hs1 : servers m1 !! serverId = Some (with_documents (insert fileUri d1) server)).
    { rewrite Hacc. simpl. by rewrite lookup_alter_eq, Hs. }
    assert (Hd1 : documents (with_documents (insert fileUri d1) server) !! fileUri = Some d1)
      by apply lookup_insert_eq.
    destruct (IH _ _ _ _ Hs1 Hd1 eq_refl Hrun) as (server' & Hs' & Hc' & Hd' & Hsent').
    exists server'. split; [done |]. split; [done |]. split.
    + rewrite Hd'. rewrite fmap_cons, last_cons_default. simpl. do 2 f_equal. lia.
    + rewrite Hsent', Hacc. simpl. rewrite didChanges_cons, <- app_assoc. done.
Qed.

(** C4: on a registered session, an accepted openDocument leaves the
    document at version 1, and after [n] further accepted updates it is at
    version [n + 1] with the last content; the connection was handed didOpen
    with version 1 and then, for the k-th update, a didChange with version
    [k + 1] and the whole new content. *)
Theorem open_then_updates_versions
    (serverId fileUri content languageId : string) (o : settle)
    (cs : list (string * settle)) (server : LSPServerInfo) (m m0 m' : LSPManager) :
  servers m !! serverId = Some server →
  accepted (openDocument serverId fileUri content languageId) o m = Some (m0, tt) →
  updateAll serverId fileUri cs m0 = Some m' →
  (documents <$> servers m0 !! serverId) ≫= (.!! fileUri)
    = Some {| uri := fileUri; languageId := languageId; version := 1;
              getText := content |}
  ∧ (documents <$> servers m' !! serverId) ≫= (.!! fileUri)
    = Some {| uri := fileUri; languageId := languageId;
              version := Z.of_nat (length cs) + 1;
              getText := List.last cs.*1 content |}
  ∧ sent m' = sent m
              ++ (connection server,
                  Notification "textDocument/didOpen"
                    (JObj [("textDocument",
                            JObj [("uri", JStr fileUri);
                                  ("languageId", JStr languageId);
                                  ("version", JNum 1);
                                  ("text", JStr content)])]))
              :: imap (fun k c =>
                         (connection server,
                          Notification "textDocument/didChange"
                            (JObj [("textDocument",
                                    JObj [("uri", JStr fileUri);
                                          ("version", JNum (Z.of_nat (S k) + 1))]);
                                   ("contentChanges",
                                    JArr [JObj [("text", JStr c)]])])))
                      cs.*1.
Proof.
  intros Hs Hopen Hrun.
  apply (accepted_openDocument _ _ _ _ _ _ _ _ _ Hs) in Hopen.
  set (d0 := TextDocument_create fileUri languageId 1 content) in *.
  assert (Hs0 : servers m0 !! serverId = Some (with_documents (insert fileUri d0) server)).
  { rewrite Hopen. simpl. by rewrite lookup_alter_eq, Hs. }
  assert (Hd0 : documents (with_documents (insert fileUri d0) server) !! fileUri = Some d0)
    by apply lookup_insert_eq.
  destruct (updateAll_versions _ _ _ _ _ _ _ Hs0 Hd0 eq_refl Hrun)
    as (server' & Hs' & Hc' & Hd' & Hsent').
  split; [| split].
  - rewrite Hs0. simpl. exact Hd0.
  - rewrite Hs'. simpl. rewrite Hd'. unfold TextDocument_create. simpl.
    do 2 f_equal. lia.
  - rewrite Hsent', Hopen. simpl. rewrite <- app_assoc. simpl. do 2 f_equal.
    apply imap_ext. intros k c _. unfold didChange. simpl.
    by replace (1 + 1 + Z.of_nat k) with (Z.pos (Pos.of_succ_nat k) + 1) by lia.
Qed.

Lemma open_then_updates_versions_witness :
  ∃ m0 m',
    accepted (openDocument "s1" "file:///tmp/proj/a.ts" "let x = 1;" "typescript")
      (Resolve JNull) one_session = Some (m0, tt)
    ∧ updateAll "s1" "file:///tmp/proj/a.ts"
        [("let x = 2;", Resolve JNull); ("let x = 3;", Resolve JNull)]%string m0 = Some m'
    ∧ (documents <$> servers m' !! "s1"%string) ≫= (.!! "file:///tmp/proj/a.ts"%string)
      = Some {| uri := "file:///tmp/proj/a.ts"; languageId := "typescript";
                version := 3; getText := "let x = 3;" |}
    ∧ sent m'
      = [(0%nat,
          Notification "textDocument/didOpen"
            (JObj [("textDocument",
                    JObj [("uri", JStr "file:///tmp/proj/a.ts");
                          ("languageId", JStr "typescript");
                          ("version", JNum 1);
                          ("text", JStr "let x = 1;")])]));
         (0%nat,
          Notification "textDocument/didChange"
            (JObj [("textDocument",
                    JObj [("uri", JStr "file:///tmp/proj/a.ts"); ("version", JNum 2)]);
                   ("contentChanges", JArr [JObj [("text", JStr "let x = 2;")]])]));
         (0%nat,
          Notification "textDocument/didChange"
            (JObj [("textDocument",
                    JObj [("uri", JStr "file:///tmp/proj/a.ts"); ("version", JNum 3)]);
                   ("contentChanges", JArr [JObj [("text", JStr "let x = 3;")]])]))].
Proof.
  eexists. eexists.
  split; [reflexivity |]. split; [reflexivity |].
  eapply (open_then_updates_versions "s1" "file:///tmp/proj/a.ts" "let x = 1;" "typescript"
            (Resolve JNull)
            [("let x = 2;", Resolve JNull); ("let x = 3;", Resolve JNull)]%string
            (session "s1" 0 ∅) one_session); reflexivity.
Defined.

(** C9: openDocument on a URI that is already open stores a fresh Document
    State at version 1 with the new content and language id, whatever the
    old state was, and the didOpen notification handed to the connection
    carries version 1; when the old version was above 1 the version for that
    URI has gone down. After an accepted update of that document, which told
    the subprocess the old version plus 1, the re-open tells it version 1
    for the same URI. *)
Theorem openDocument_reopen_resets_version
    (serverId fileUri content languageId : string) (server : LSPServerInfo)
    (old : TextDocument) (m : LSPManager) :
  servers m !! serverId = Some server →
  documents server !! fileUri = Some old →
  let x := openDocument serverId fileUri content languageId m in
  let fresh := {| uri := fileUri; languageId := languageId; version := 1;
                  getText := content |} in
  let reopened :=
    (connection server,
     Notification "textDocument/didOpen"
       (JObj [("textDocument",
               JObj [("uri", JStr fileUri); ("languageId", JStr languageId);
                     ("version", JNum 1); ("text", JStr content)])])) in
  servers x.1 !! serverId = Some (with_documents (insert fileUri fresh) server)
  ∧ documents (with_documents (insert fileUri fresh) server) !! fileUri = Some fresh
  ∧ (throwIfClosedOrDisposed (connection server) m = None →
     sent x.1 = sent m ++ [reopened])
  ∧ (1 < version old → version fresh < version old)
  ∧ (∀ newer o m1,
       accepted (updateDocument serverId fileUri newer) o m = Some (m1, tt) →
       let y := openDocument serverId fileUri content languageId m1 in
       sent y.1
       = sent m
         ++ [(connection server,
              Notification "textDocument/didChange"
                (JObj [("textDocument",
                        JObj [("uri", JStr fileUri);
                              ("version", JNum (version old + 1))]);
                       ("contentChanges", JArr [JObj [("text", JStr newer)]])]));
             reopened]
       ∧ (documents <$> servers y.1 !! serverId) ≫= (.!! fileUri) = Some fresh
       ∧ (0 < version old → 1 < version old + 1)).
Proof.
  intros Hs Hold x fresh reopened. unfold x.
  rewrite (openDocument_registered _ _ _ _ _ _ Hs). simpl.
  unfold try_sendNotification.
  change (throwIfClosedOrDisposed (connection server) (set_document _ _ _ m))
    with (throwIfClosedOrDisposed (connection server) m).
  split; [| split; [| split; [| split]]].
  - destruct (throwIfClosedOrDisposed _ _); simpl; by rewrite lookup_alter_eq, Hs.
  - apply lookup_insert_eq.
  - by intros ->.
  - done.
  - intros newer o m1 Hupdate.
    assert (Hopen : throwIfClosedOrDisposed (connection server) m = None).
    { unfold accepted, resume in Hupdate.
      rewrite (updateDocument_open _ _ newer _ _ _ Hs Hold) in Hupdate.
      unfold try_sendNotification in Hupdate.
      change (throwIfClosedOrDisposed (connection server) (set_document _ _ _ m))
        with (throwIfClosedOrDisposed (connection server) m) in Hupdate.
      by destruct (throwIfClosedOrDisposed (connection server) m). }
    apply (accepted_updateDocument _ _ _ _ _ _ _ _ _ Hs Hold) in Hupdate.
    assert (Hs1 : ∃ d1, servers m1 !! serverId
                        = Some (with_documents (insert fileUri d1) server)).
    { eexists. rewrite Hupdate. simpl. by rewrite lookup_alter_eq, Hs. }
    destruct Hs1 as [d1 Hs1].
    rewrite (openDocument_registered _ _ _ _ _ _ Hs1). simpl.
    unfold try_sendNotification.
    change (throwIfClosedOrDisposed (connection server) (set_document _ _ _ m1))
      with (throwIfClosedOrDisposed (connection server) m1).
    replace (throwIfClosedOrDisposed (connection server) m1) with (@None error)
      by (by rewrite Hupdate).
    simpl. split; [| split; [| lia]].
    + rewrite Hupdate. simpl. by rewrite <- app_assoc.
    + rewrite lookup_alter_eq, Hs1. simpl. rewrite lookup_insert_eq. done.
Qed.

Lemma openDocument_reopen_resets_version_witness :
  let x := openDocument "s1" "file:///tmp/proj/a.ts" "x = 1" "python" one_document in
  let reopened :=
    (0%nat,
     Notification "textDocument/didOpen"
       (JObj [("textDocument",
               JObj [("uri", JStr "file:///tmp/proj/a.ts"); ("languageId", JStr "python");
                     ("version", JNum 1); ("text", JStr "x = 1")])])) in
  (documents <$> servers x.1 !! "s1"%string) ≫= (.!! "file:///tmp/proj/a.ts"%string)
    = Some {| uri := "file:///tmp/proj/a.ts"; languageId := "python"; version := 1;
              getText := "x = 1" |}
  ∧ sent x.1 = [reopened]
  ∧ version {| uri := "file:///tmp/proj/a.ts"; languageId := "python"; version := 1;
               getText := "x = 1" |} < 3
  ∧ ∃ m1,
      accepted (updateDocument "s1" "file:///tmp/proj/a.ts" "let x = 4;") (Resolve JNull)
        one_document = Some (m1, tt)
      ∧ sent (openDocument "s1" "file:///tmp/proj/a.ts" "x = 1" "python" m1).1
        = [(0%nat,
            Notification "textDocument/didChange"
              (JObj [("textDocument",
                      JObj [("uri", JStr "file:///tmp/proj/a.ts"); ("version", JNum 4)]);
                     ("contentChanges", JArr [JObj [("text", JStr "let x = 4;")]])]));
           reopened].
Proof.
  assert (Hs : servers one_document !! "s1"%string
               = Some (session "s1" 0
                         {[ "file:///tmp/proj/a.ts"%string :=
                              TextDocument_create "file:///tmp/proj/a.ts" "typescript" 3
                                "let x = 3;" ]}))
    by reflexivity.
  destruct (openDocument_reopen_resets_version "s1" "file:///tmp/proj/a.ts" "x = 1" "python"
              _ (TextDocument_create "file:///tmp/proj/a.ts" "typescript" 3 "let x = 3;")
              one_document Hs) as (Hsrv & Hdoc & Hsent & Hlower & Hafter).
  { reflexivity. }
  intros x reopened. split; [| split; [| split]].
  - unfold x. rewrite Hsrv. simpl. exact Hdoc.
  - apply Hsent. reflexivity.
  - apply Hlower. reflexivity.
  - eexists. split; [reflexivity |].
    eapply (Hafter "let x = 4;"%string (Resolve JNull)). reflexivity.
Defined.

(** ** Stopping a session *)

Lemma stopServer_finish_removes (serverId : string) (server : LSPServerInfo)
    (m : LSPManager) :
  let m' := (stopServer_finish serverId server m).1 in
  servers m' !! serverId = None
  ∧ process server ∈ killed m'
  ∧ connection server ∈ disposed m'.
Proof.
  simpl. split; [apply lookup_delete_eq |]. split; apply list_elem_of_here.
Qed.

(** C6: stopServer of an unknown identifier is refused with SessionNotFound
    and changes nothing. For a registered session, however the shutdown
    request and the exit notification go (refused by the connection,
    rejected, or resolved) and whatever ran while stopServer was suspended,
    the call is fulfilled, and when it is the process has been killed, the
    connection disposed and the identifier is no longer in the registry, so
    that a lookup is refused with SessionNotFound. *)
Theorem stopServer_removes_session (serverId : string) (m : LSPManager) :
  (servers m !! serverId = None →
     stopServer serverId m = (m, Rejected (SessionNotFound serverId)))
  ∧ (∀ server, servers m !! serverId = Some server →
       completes
         (fun m' _ =>
            servers m' !! serverId = None
            ∧ process server ∈ killed m'
            ∧ connection server ∈ disposed m'
            ∧ ∀ fileUri,
                getDiagnostics serverId fileUri m'
                = (m', Rejected (SessionNotFound serverId)))
         (stopServer serverId m)).
Proof.
  split.
  - intros Hs. unfold stopServer. by rewrite Hs.
  - intros server Hs.
    assert (Hfinish : ∀ m1,
      completes
        (fun m' (_ : unit) =>
           servers m' !! serverId = None
           ∧ process server ∈ killed m'
           ∧ connection server ∈ disposed m'
           ∧ ∀ fileUri,
               getDiagnostics serverId fileUri m'
               = (m', Rejected (SessionNotFound serverId)))
        (stopServer_finish serverId server m1)).
    { intros m1. apply completes_now.
      destruct (stopServer_finish_removes serverId server m1) as (Hgone & Hk & Hd).
      repeat split; [exact Hgone | exact Hk | exact Hd |].
      intros fileUri. by apply getDiagnostics_unknown. }
    unfold stopServer. rewrite Hs. unfold try_sendRequest.
    destruct (throwIfClosedOrDisposed _ m); [apply Hfinish |].
    apply completes_later. intros [v | cause] m1; [| apply Hfinish].
    unfold try_sendNotification.
    destruct (throwIfClosedOrDisposed _ m1); [apply Hfinish |].
    apply completes_later. intros [v' | cause'] m2; apply Hfinish.
Qed.

Lemma stopServer_removes_session_witness :
  stopServer "s0" one_session = (one_session, Rejected (SessionNotFound "s0"))
  ∧ completes
      (fun m' _ =>
         servers m' !! "s1"%string = None
         ∧ 0%nat ∈ killed m'
         ∧ 0%nat ∈ disposed m'
         ∧ ∀ fileUri,
             getDiagnostics "s1" fileUri m' = (m', Rejected (SessionNotFound "s1")))
      (stopServer "s1" one_session).
Proof.
  destruct (stopServer_removes_session "s0" one_session) as [Hunknown _].
  destruct (stopServer_removes_session "s1" one_session) as [_ Hknown].
  split.
  - apply Hunknown. reflexivity.
  - apply (Hknown (session "s1" 0 ∅)). reflexivity.
Defined.

(** ** Requests *)

Lemma request_null_on_failure (serverId method : string) (params : json)
    (server : LSPServerInfo) (m : LSPManager) :
  servers m !! serverId = Some server →
  null_on_failure (request serverId method params) m.
Proof.
  intros Hs. unfold null_on_failure, request, try_sendRequest. rewrite Hs.
  destruct (throwIfClosedOrDisposed _ m); simpl; done.
Qed.

(** C8: on a registered session each of the seven request methods leaves the
    registry, and so every document map, as it was; when the connection
    refuses the request the method answers null at once, and otherwise it
    waits, and if the request is then rejected, for whatever cause, it
    answers null and changes nothing in the state it is resumed in. *)
Theorem requests_answer_null_on_failure
    (serverId fileUri newName : string) (line character : Z) (includeDeclaration : bool)
    (server : LSPServerInfo) (m : LSPManager) :
  servers m !! serverId = Some server →
  null_on_failure (getCompletions serverId fileUri line character) m
  ∧ null_on_failure (getHover serverId fileUri line character) m
  ∧ null_on_failure (goToDefinition serverId fileUri line character) m
  ∧ null_on_failure (findReferences serverId fileUri line character includeDeclaration) m
  ∧ null_on_failure (renameSymbol serverId fileUri line character newName) m
  ∧ null_on_failure (formatDocument serverId fileUri) m
  ∧ null_on_failure (getDocumentSymbols serverId fileUri) m.
Proof.
  intros Hs.
  do 6 (split; [eapply request_null_on_failure; exact Hs |]).
  eapply request_null_on_failure; exact Hs.
Qed.

Lemma requests_answer_null_on_failure_witness :
  null_on_failure (getCompletions "s1" "file:///tmp/proj/a.ts" 0 4) one_session
  ∧ null_on_failure (getHover "s1" "file:///tmp/proj/a.ts" 0 4) one_session
  ∧ null_on_failure (goToDefinition "s1" "file:///tmp/proj/a.ts" 0 4) one_session
  ∧ null_on_failure (findReferences "s1" "file:///tmp/proj/a.ts" 0 4 true) one_session
  ∧ null_on_failure (renameSymbol "s1" "file:///tmp/proj/a.ts" 0 4 "y") one_session
  ∧ null_on_failure (formatDocument "s1" "file:///tmp/proj/a.ts") one_session
  ∧ null_on_failure (getDocumentSymbols "s1" "file:///tmp/proj/a.ts") one_session.
Proof.
  apply (requests_answer_null_on_failure "s1" "file:///tmp/proj/a.ts" "y" 0 4 true
           (session "s1" 0 ∅) one_session).
  reflexivity.
Defined.

(** A rejected hover request on session s1: the answer is null and the
    manager is as it was when the request was sent. *)
Example getHover_rejected :
  let x := getHover "s1" "file:///tmp/proj/a.ts" 0 4 one_document in
  resume (Reject "Request textDocument/hover failed") x = (x.1, Fulfilled JNull)
  ∧ servers x.1 = servers one_document.
Proof. split; reflexivity. Qed.

Lemma request_sent_unchecked (serverId method : string) (params : json)
    (server : LSPServerInfo) (m : LSPManager) :
  servers m !! serverId = Some server →
  sent_unchecked (request serverId method params) (connection server) method params m.
Proof.
  intros Hs. unfold sent_unchecked, request, try_sendRequest. rewrite Hs. split.
  - destruct (throwIfClosedOrDisposed _ m); [by apply completes_now |].
    apply completes_later. intros [v | cause] m'; by apply completes_now.
  - intros ->. simpl. split; [done |]. by eexists.
Qed.

(** C10: on a registered session in which the URI has no Document State,
    each of the seven request methods still builds its request for that URI
    and, when the connection accepts messages, hands it to the connection
    and waits for the answer; whatever happens next the call is fulfilled,
    so it is never refused with DocumentNotOpen. *)
Theorem requests_do_not_require_open_document
    (serverId fileUri newName : string) (line character : Z) (includeDeclaration : bool)
    (server : LSPServerInfo) (m : LSPManager) :
  servers m !! serverId = Some server →
  documents server !! fileUri = None →
  let c := connection server in
  sent_unchecked (getCompletions serverId fileUri line character) c
    "textDocument/completion"
    (JObj [("textDocument", JObj [("uri", JStr fileUri)]);
           ("position", JObj [("line", JNum line); ("character", JNum character)])]) m
  ∧ sent_unchecked (getHover serverId fileUri line character) c
      "textDocument/hover"
      (JObj [("textDocument", JObj [("uri", JStr fileUri)]);
             ("position", JObj [("line", JNum line); ("character", JNum character)])]) m
  ∧ sent_unchecked (goToDefinition serverId fileUri line character) c
      "textDocument/definition"
      (JObj [("textDocument", JObj [("uri", JStr fileUri)]);
             ("position", JObj [("line", JNum line); ("character", JNum character)])]) m
  ∧ sent_unchecked (findReferences serverId fileUri line character includeDeclaration) c
      "textDocument/references"
      (JObj [("textDocument", JObj [("uri", JStr fileUri)]);
             ("position", JObj [("line", JNum line); ("character", JNum character)]);
             ("context", JObj [("includeDeclaration", JBool includeDeclaration)])]) m
  ∧ sent_unchecked (renameSymbol serverId fileUri line character newName) c
      "textDocument/rename"
      (JObj [("textDocument", JObj [("uri", JStr fileUri)]);
             ("position", JObj [("line", JNum line); ("character", JNum character)]);
             ("newName", JStr newName)]) m
  ∧ sent_unchecked (formatDocument serverId fileUri) c
      "textDocument/formatting"
      (JObj [("textDocument", JObj [("uri", JStr fileUri)]);
             ("options", JObj [("tabSize", JNum 2); ("insertSpaces", JBool true)])]) m
  ∧ sent_unchecked (getDocumentSymbols serverId fileUri) c
      "textDocument/documentSymbol"
      (JObj [("textDocument", JObj [("uri", JStr fileUri)])]) m.
Proof.
  intros Hs _ c.
  do 6 (split; [eapply request_sent_unchecked; exact Hs |]).
  eapply request_sent_unchecked; exact Hs.
Qed.

Lemma requests_do_not_require_open_document_witness :
  sent_unchecked (getHover "s1" "file:///tmp/proj/never-opened.ts" 0 4) 0
    "textDocument/hover"
    (JObj [("textDocument", JObj [("uri", JStr "file:///tmp/proj/never-opened.ts")]);
           ("position", JObj [("line", JNum 0); ("character", JNum 4)])]) one_document
  ∧ sent_unchecked (formatDocument "s1" "file:///tmp/proj/never-opened.ts") 0
      "textDocument/formatting"
      (JObj [("textDocument", JObj [("uri", JStr "file:///tmp/proj/never-opened.ts")]);
             ("options", JObj [("tabSize", JNum 2); ("insertSpaces", JBool true)])])
      one_document.
Proof.
  assert (Hs : servers one_document !! "s1"%string
               = Some (session "s1" 0
                         {[ "file:///tmp/proj/a.ts"%string :=
                              TextDocument_create "file:///tmp/proj/a.ts" "typescript" 3
                                "let x = 3;" ]}))
    by reflexivity.
  destruct (requests_do_not_require_open_document "s1" "file:///tmp/proj/never-opened.ts"
              "y" 0 4 true _ one_document Hs)
    as (_ & Hhover & _ & _ & _ & Hformat & _).
  { reflexivity. }
  split; [exact Hhover | exact Hformat].
Defined.

(** A reference query for a document that was never opened goes out. *)
Example findReferences_never_opened :
  sent (findReferences "s1" "file:///tmp/proj/never-opened.ts" 2 7 true one_document).1
  = [(0%nat, Request "textDocument/references"
               (JObj [("textDocument", JObj [("uri", JStr "file:///tmp/proj/never-opened.ts")]);
                      ("position", JObj [("line", JNum 2); ("character", JNum 7)]);
                      ("context", JObj [("includeDeclaration", JBool true)])]))].
Proof. reflexivity. Qed.

(** ** Stopping every session *)

Lemma dom_delete_servers (serverId : string) (m : LSPManager) :
  dom (servers (with_servers (delete serverId) m)) ⊆ dom (servers m).
Proof. simpl. apply subseteq_dom, delete_subseteq. Qed.

Lemma stopping_shrink (serverId : string) (p : Async unit) (m1 m2 : LSPManager) :
  dom (servers m2) ⊆ dom (servers m1) →
  stopping serverId (m1, p) → stopping serverId (m2, p).
Proof.
  intros Hdom Hstop. inversion Hstop as [m u Hgone | m c k Hk1 Hk2]; subst.
  - apply stopping_done. apply not_elem_of_dom. apply not_elem_of_dom in Hgone.
    intros Hin. apply Hgone, Hdom, Hin.
  - by apply stopping_wait.
Qed.

Lemma stopping_completes (serverId : string) (x : LSPManager * Async unit) :
  stopping serverId x → ∀ m', completes (fun _ _ => True) (m', x.2).
Proof.
  induction 1 as [m u Hgone | m c k Hk1 Hk2 IH]; intros m'; simpl.
  - by apply completes_now.
  - apply completes_later. intros o m1. specialize (IH o m1 (k o m1).1).
    by destruct (k o m1).
Qed.

Lemma stopServer_finish_stopping (serverId : string) (server : LSPServerInfo)
    (m : LSPManager) :
  dom (servers (stopServer_finish serverId server m).1) ⊆ dom (servers m)
  ∧ stopping serverId
      (let '(m', a') := stopServer_finish serverId server m in (m', catch_log a')).
Proof.
  simpl. split.
  - apply subseteq_dom, delete_subseteq.
  - apply stopping_done. simpl. apply lookup_delete_eq.
Qed.

(** The first segment of [stopServer(id).catch(...)]. *)
Lemma stopServer_stopping (serverId : string) (m : LSPManager) :
  dom (servers (stopServer serverId m).1) ⊆ dom (servers m)
  ∧ stopping serverId ((stopServer serverId m).1, catch_log (stopServer serverId m).2).
Proof.
  unfold stopServer. destruct (servers m !! serverId) as [server |] eqn:Hs.
  - unfold try_sendRequest.
    destruct (throwIfClosedOrDisposed _ m).
    { destruct (stopServer_finish_stopping serverId server m) as [Hdom Hstop].
      split; [exact Hdom | exact Hstop]. }
    simpl. split; [done |].
    apply stopping_wait.
    + intros [v | cause] m1.
      * unfold try_sendNotification.
        destruct (throwIfClosedOrDisposed _ m1); simpl; [| done].
        apply subseteq_dom, delete_subseteq.
      * simpl. apply subseteq_dom, delete_subseteq.
    + intros [v | cause] m1.
      * unfold try_sendNotification.
        destruct (throwIfClosedOrDisposed _ m1).
        { apply (stopServer_finish_stopping serverId server m1). }
        simpl. apply stopping_wait.
        -- intros o m2. destruct o; simpl; apply subseteq_dom, delete_subseteq.
        -- intros o m2. destruct o; apply (stopServer_finish_stopping serverId server m2).
      * apply (stopServer_finish_stopping serverId server m1).
  - simpl. split; [done |]. by apply stopping_done.
Qed.

Lemma sweeping_shrink (ids : list string) (ps : list (Async unit)) (m1 m2 : LSPManager) :
  dom (servers m2) ⊆ dom (servers m1) →
  sweeping ids (m1, ps) → sweeping ids (m2, ps).
Proof.
  unfold sweeping. simpl. intros Hdom Hsw.
  eapply Forall2_impl; [exact Hsw |]. intros serverId p. by apply stopping_shrink.
Qed.

Lemma stopAllServers_from (ids : list string) :
  ∀ (done : list string) (m : LSPManager) (ps : list (Async unit)),
    sweeping done (m, ps) →
    let x := foldl (fun acc serverId =>
                      let '(m', p) := stopServer serverId acc.1 in
                      (m', acc.2 ++ [catch_log p])) (m, ps) ids in
    sweeping (done ++ ids) x.
Proof.
  induction ids as [| serverId ids IH]; intros done m ps Hsw; simpl.
  - by rewrite app_nil_r.
  - destruct (stopServer_stopping serverId m) as [Hdom Hstop].
    destruct (stopServer serverId m) as [m' p] eqn:Hcall. simpl in Hdom, Hstop.
    replace (done ++ serverId :: ids) with ((done ++ [serverId]) ++ ids)
      by (by rewrite <- app_assoc).
    apply IH. unfold sweeping. simpl. apply Forall2_app.
    + by apply (sweeping_shrink done ps m m').
    + by constructor.
Qed.

Lemma stopAllServers_sweeping (ids : list string) (m : LSPManager) :
  sweeping ids (stopAllServers ids m).
Proof. apply (stopAllServers_from ids [] m []). constructor. Qed.

Lemma step_sweeping (ids : list string) (e : event) (x : LSPManager * list (Async unit)) :
  sweeping ids x → sweeping ids (step x e).
Proof.
  destruct x as [m ps]. intros Hsw.
  destruct e as [i o | serverId | serverId | c | c method params]; simpl.
  - destruct (ps !! i) as [p |] eqn:Hp; [| done].
    destruct p as [u | err | c k | bg fg]; try done.
    destruct (Forall2_lookup_r _ _ _ _ _ Hsw Hp) as (serverId & Hid & Hstop).
    simpl in Hstop.
    inversion Hstop as [| m0 c0 k0 Hk1 Hk2]; subst.
    specialize (Hk1 o m). specialize (Hk2 o m).
    destruct (k o m) as [m' a]. simpl in Hk1.
    rewrite <- (list_insert_id ids i serverId Hid).
    apply Forall2_insert; [| done].
    by apply (sweeping_shrink ids ps m m').
  - apply (sweeping_shrink ids ps m); [apply dom_delete_servers | done].
  - apply (sweeping_shrink ids ps m); [apply dom_delete_servers | done].
  - by apply (sweeping_shrink ids ps m).
  - done.
Qed.

Lemma run_sweeping (ids : list string) (es : list event) :
  ∀ x, sweeping ids x → sweeping ids (run es x).
Proof.
  unfold run. induction es as [| e es IH]; intros x Hsw; simpl; [done |].
  apply IH. by apply step_sweeping.
Qed.

Lemma Promise_all_fulfilled (ps : list (Async unit)) (p : Async unit) :
  Promise_all ps = Some (inr tt) → p ∈ ps → ∃ u, foreground p = Fulfilled u.
Proof.
  induction ps as [| q ps IH]; intros Hall Hin; [by apply elem_of_nil in Hin |].
  simpl in Hall. apply elem_of_cons in Hin as [-> | Hin].
  - destruct (foreground q) as [u | | |]; [by exists u | discriminate | |];
      by destruct (Promise_all ps) as [[|] |].
  - apply IH; [| done].
    destruct (foreground q) as [u | | |]; [done | discriminate | |];
      by destruct (Promise_all ps) as [[|] |].
Qed.

Lemma Promise_all_rejected (ps : list (Async unit)) (e : error) :
  Promise_all ps = Some (inl e) → ∃ p e', p ∈ ps ∧ foreground p = Rejected e'.
Proof.
  induction ps as [| q ps IH]; intros Hall; [discriminate |].
  simpl in Hall. destruct (foreground q) as [u | e' | c k | bg fg] eqn:Hq.
  - destruct (IH Hall) as (p & e' & Hin & Hp). exists p, e'. split; [| done].
    by apply list_elem_of_further.
  - exists q, e'. split; [apply list_elem_of_here | done].
  - destruct (Promise_all ps) as [[e1 |] |] eqn:Hps; try discriminate.
    destruct (IH Hall) as (p & e' & Hin & Hp). exists p, e'. split; [| done].
    by apply list_elem_of_further.
  - destruct (Promise_all ps) as [[e1 |] |] eqn:Hps; try discriminate.
    destruct (IH Hall) as (p & e' & Hin & Hp). exists p, e'. split; [| done].
    by apply list_elem_of_further.
Qed.

Lemma grows_refl (m : LSPManager) : grows m m.
Proof. unfold grows. repeat split; auto. Qed.

Lemma grows_trans (m1 m2 m3 : LSPManager) : grows m1 m2 → grows m2 m3 → grows m1 m3.
Proof.
  intros (Hd1 & Hs1 & Hc1 & Hk1) (Hd2 & Hs2 & Hc2 & Hk2).
  unfold grows. repeat split; auto. by etrans.
Qed.

Lemma grows_transmit (c : nat) (msg : Message) (m : LSPManager) :
  grows m (transmit c msg m).
Proof.
  unfold grows. simpl. repeat split; auto.
  intros x Hx. apply elem_of_app. by left.
Qed.

Lemma grows_finish (serverId : string) (server : LSPServerInfo) (m : LSPManager) :
  grows m (stopServer_finish serverId server m).1.
Proof.
  unfold grows. simpl. split; [apply subseteq_dom, delete_subseteq |].
  split; [done |]. split; intros x Hx; by apply list_elem_of_further.
Qed.

Lemma grows_delete (serverId : string) (m : LSPManager) :
  grows m (with_servers (delete serverId) m).
Proof.
  unfold grows. simpl. split; [apply subseteq_dom, delete_subseteq | done].
Qed.

Lemma stops_grows (serverId : string) (server : LSPServerInfo) (p : Async unit)
    (m1 m2 : LSPManager) :
  grows m1 m2 → stops serverId server (m1, p) → stops serverId server (m2, p).
Proof.
  intros (Hdom & Hsent & Hdisposed & Hkilled) Hstop.
  inversion Hstop as [m u Hgone Hk Hd | m c k Hshutdown Hk1 Hk2]; subst.
  - apply stops_done; [| by apply Hkilled | by apply Hdisposed].
    apply not_elem_of_dom. apply not_elem_of_dom in Hgone.
    intros Hin. apply Hgone, Hdom, Hin.
  - apply stops_wait; [by apply Hsent | done | done].
Qed.

Lemma stops_finish (serverId : string) (server : LSPServerInfo) (m : LSPManager) :
  stops serverId server
    (let '(m', a') := stopServer_finish serverId server m in (m', catch_log a')).
Proof.
  simpl. apply stops_done; simpl; [apply lookup_delete_eq | |]; apply list_elem_of_here.
Qed.

(** The first segment of [stopServer(id).catch(...)] for a registered
    session: the shutdown request goes out, or the session is torn down at
    once; no other entry of the registry is touched. *)
Lemma stopServer_stops (serverId : string) (server : LSPServerInfo) (m : LSPManager) :
  servers m !! serverId = Some server →
  grows m (stopServer serverId m).1
  ∧ (∀ k, k ≠ serverId → servers (stopServer serverId m).1 !! k = servers m !! k)
  ∧ stops serverId server ((stopServer serverId m).1, catch_log (stopServer serverId m).2).
Proof.
  intros Hs. unfold stopServer. rewrite Hs. unfold try_sendRequest.
  destruct (throwIfClosedOrDisposed _ m).
  { split; [apply grows_finish |]. split; [| apply (stops_finish serverId server m)].
    intros k Hne. simpl. by apply lookup_delete_ne. }
  simpl. split; [apply grows_transmit |]. split; [done |].
  apply stops_wait.
  - simpl. apply elem_of_app. right. apply list_elem_of_here.
  - intros [v | cause] m1.
    + unfold try_sendNotification.
      destruct (throwIfClosedOrDisposed _ m1);
        [apply grows_finish | apply grows_transmit].
    + apply grows_finish.
  - intros [v | cause] m1 Hshutdown.
    + unfold try_sendNotification.
      destruct (throwIfClosedOrDisposed _ m1).
      { apply (stops_finish serverId server m1). }
      simpl. apply stops_wait.
      * simpl. apply elem_of_app. by left.
      * intros o m2. destruct o; apply grows_finish.
      * intros o m2 _. destruct o; apply (stops_finish serverId server m2).
    + apply (stops_finish serverId server m1).
Qed.

Lemma stopServer_grows (serverId : string) (m : LSPManager) :
  grows m (stopServer serverId m).1.
Proof.
  destruct (servers m !! serverId) as [server |] eqn:Hs.
  - by apply (stopServer_stops serverId server).
  - unfold stopServer. rewrite Hs. apply grows_refl.
Qed.

Lemma stopping_all_grows (registry : gmap string LSPServerInfo) (ids : list string)
    (ps : list (Async unit)) (m1 m2 : LSPManager) :
  grows m1 m2 → stopping_all registry ids (m1, ps) → stopping_all registry ids (m2, ps).
Proof.
  unfold stopping_all. simpl. intros Hgrows Hall.
  eapply Forall2_impl; [exact Hall |]. intros serverId p (server & Hreg & Hstop).
  exists server. split; [done |]. by apply (stops_grows _ _ _ m1).
Qed.

Lemma stopAllServers_from_stops (registry : gmap string LSPServerInfo) (ids : list string) :
  ∀ (done : list string) (m : LSPManager) (ps : list (Async unit)),
    NoDup ids →
    (∀ serverId, serverId ∈ ids →
       is_Some (registry !! serverId) ∧ servers m !! serverId = registry !! serverId) →
    stopping_all registry done (m, ps) →
    stopping_all registry (done ++ ids)
      (foldl (fun acc serverId =>
                let '(m', p) := stopServer serverId acc.1 in
                (m', acc.2 ++ [catch_log p])) (m, ps) ids).
Proof.
  induction ids as [| serverId ids IH]; intros done m ps Hnodup Hreg Hall; simpl.
  - by rewrite app_nil_r.
  - apply NoDup_cons in Hnodup as [Hfresh Hnodup].
    destruct (Hreg serverId) as [[server Hserver] Hm]; [apply list_elem_of_here |].
    rewrite Hserver in Hm.
    destruct (stopServer_stops serverId server m Hm) as (Hgrows & Hframe & Hstop).
    destruct (stopServer serverId m) as [m' p] eqn:Hcall. simpl in Hgrows, Hframe, Hstop.
    replace (done ++ serverId :: ids) with ((done ++ [serverId]) ++ ids)
      by (by rewrite <- app_assoc).
    apply IH; [done | |].
    + intros k Hk. destruct (Hreg k) as [Hsome Hsame]; [by apply list_elem_of_further |].
      split; [done |]. rewrite Hframe; [done |]. by intros ->.
    + unfold stopping_all. simpl. apply Forall2_app.
      * by apply (stopping_all_grows registry done ps m m').
      * constructor; [| constructor]. by exists server.
Qed.

Lemma step_grows (registry : gmap string LSPServerInfo) (ids : list string) (e : event)
    (x : LSPManager * list (Async unit)) :
  stopping_all registry ids x → grows x.1 (step x e).1.
Proof.
  destruct x as [m ps]. intros Hall.
  destruct e as [i o | serverId | serverId | c | c method params]; simpl.
  - destruct (ps !! i) as [p |] eqn:Hp; [| apply grows_refl].
    destruct p as [u | err | c k | bg fg]; try apply grows_refl.
    destruct (Forall2_lookup_r _ _ _ _ _ Hall Hp) as (serverId & _ & server & _ & Hstop).
    simpl in Hstop. inversion Hstop as [| m0 c0 k0 Hshutdown Hk1 Hk2]; subst.
    specialize (Hk1 o m). by destruct (k o m).
  - apply grows_delete.
  - apply grows_delete.
  - unfold grows. simpl. repeat split; auto.
  - apply grows_refl.
Qed.

Lemma step_stopping_all (registry : gmap string LSPServerInfo) (ids : list string)
    (e : event) (x : LSPManager * list (Async unit)) :
  stopping_all registry ids x → stopping_all registry ids (step x e).
Proof.
  intros Hall. pose proof (step_grows registry ids e x Hall) as Hgrows.
  destruct x as [m ps].
  destruct e as [i o | serverId | serverId | c | c method params]; simpl in *;
    try (by apply (stopping_all_grows registry ids ps m)).
  destruct (ps !! i) as [p |] eqn:Hp; [| done].
  destruct p as [u | err | c k | bg fg]; try done.
  destruct (Forall2_lookup_r _ _ _ _ _ Hall Hp) as (serverId & Hid & server & Hreg & Hstop).
  simpl in Hstop. inversion Hstop as [| m0 c0 k0 Hshutdown Hk1 Hk2]; subst.
  specialize (Hk2 o m Hshutdown).
  destruct (k o m) as [m' a]. simpl in Hgrows.
  unfold stopping_all. simpl.
  rewrite <- (list_insert_id ids i serverId Hid).
  apply Forall2_insert; [| by exists server].
  by apply (stopping_all_grows registry ids ps m m').
Qed.

Lemma run_stopping_all (registry : gmap string LSPServerInfo) (ids : list string)
    (es : list event) :
  ∀ x, stopping_all registry ids x → stopping_all registry ids (run es x).
Proof.
  unfold run. induction es as [| e es IH]; intros x Hall; simpl; [done |].
  apply IH. by apply step_stopping_all.
Qed.

(** C7: [stopAllServers] starts one stop per registered session. Whatever
    then happens (promises settling in any order and with any outcome,
    processes exiting, connections closing), each of these calls is
    fulfilled once its promises have settled and none is ever rejected, so
    that [Promise.all] over them is never rejected; and once it is fulfilled
    no session that was registered at the call is in the registry, and the
    process of each has been killed and its connection disposed. From the
    moment [stopAllServers] first waits, every session registered at the
    call has either been handed the shutdown request on its connection or
    already been killed and disposed. *)
Theorem stopAllServers_stops_every_session
    (ids : list string) (es : list event) (m : LSPManager) :
  ids ≡ₚ (map_to_list (servers m)).*1 →
  let x := run es (stopAllServers ids m) in
  length x.2 = length ids
  ∧ (∀ p m', p ∈ x.2 → completes (fun _ _ => True) (m', p))
  ∧ (∀ e, Promise_all x.2 ≠ Some (inl e))
  ∧ (Promise_all x.2 = Some (inr tt) →
     ∀ serverId, is_Some (servers m !! serverId) → servers x.1 !! serverId = None)
  ∧ (Promise_all x.2 = Some (inr tt) →
     ∀ serverId server, servers m !! serverId = Some server →
       process server ∈ killed x.1 ∧ connection server ∈ disposed x.1)
  ∧ (∀ serverId server, servers m !! serverId = Some server →
       (connection server, Request "shutdown" JNull) ∈ sent x.1
       ∨ (process server ∈ killed x.1 ∧ connection server ∈ disposed x.1)).
Proof.
  intros Hids x.
  assert (Hsw : sweeping ids x) by apply run_sweeping, stopAllServers_sweeping.
  unfold sweeping in Hsw.
  assert (Hcompletes : ∀ p m', p ∈ x.2 → completes (fun _ _ => True) (m', p)).
  { intros p m' Hin. apply list_elem_of_lookup in Hin as [i Hi].
    destruct (Forall2_lookup_r _ _ _ _ _ Hsw Hi) as (serverId & _ & Hstop).
    apply (stopping_completes serverId _ Hstop m'). }
  assert (Hregistered : ∀ serverId server,
            servers m !! serverId = Some server → serverId ∈ ids).
  { intros serverId server Hs. rewrite Hids. apply list_elem_of_fmap.
    exists (serverId, server). split; [done |]. by apply elem_of_map_to_list. }
  assert (Hall : stopping_all (servers m) ids x).
  { apply run_stopping_all.
    apply (stopAllServers_from_stops (servers m) ids [] m []).
    - rewrite Hids. apply NoDup_fst_map_to_list.
    - intros serverId Hin. split; [| done]. rewrite Hids in Hin.
      apply list_elem_of_fmap in Hin as ([k s] & -> & Hin).
      apply elem_of_map_to_list in Hin. by exists s.
    - constructor. }
  unfold stopping_all in Hall.
  split; [symmetry; by eapply Forall2_length |]. split; [exact Hcompletes |].
  split; [| split; [| split]].
  - intros e Hrejected. apply Promise_all_rejected in Hrejected as (p & e' & Hin & Hp).
    specialize (Hcompletes p m Hin). inversion Hcompletes; subst; discriminate Hp.
  - intros Hfulfilled serverId [server Hs].
    pose proof (Hregistered serverId server Hs) as Hin.
    apply list_elem_of_lookup in Hin as [i Hi].
    destruct (Forall2_lookup_l _ _ _ _ _ Hsw Hi) as (p & Hp & Hstop).
    destruct (Promise_all_fulfilled _ p Hfulfilled) as [u Hu];
      [by eapply list_elem_of_lookup_2 |].
    inversion Hstop; subst; [done | discriminate Hu].
  - intros Hfulfilled serverId server Hs.
    pose proof (Hregistered serverId server Hs) as Hin.
    apply list_elem_of_lookup in Hin as [i Hi].
    destruct (Forall2_lookup_l _ _ _ _ _ Hall Hi) as (p & Hp & server' & Hs' & Hstop).
    assert (server' = server) as -> by congruence.
    destruct (Promise_all_fulfilled _ p Hfulfilled) as [u Hu];
      [by eapply list_elem_of_lookup_2 |].
    inversion Hstop; subst; [done | discriminate Hu].
  - intros serverId server Hs.
    pose proof (Hregistered serverId server Hs) as Hin.
    apply list_elem_of_lookup in Hin as [i Hi].
    destruct (Forall2_lookup_l _ _ _ _ _ Hall Hi) as (p & Hp & server' & Hs' & Hstop).
    assert (server' = server) as -> by congruence.
    inversion Hstop; subst; [by right | by left].
Qed.

Lemma stopAllServers_stops_every_session_witness :
  let x := run [Settled 0 (Reject "shutdown timed out")]
             (stopAllServers ["s1"; "s2"]%string two_sessions) in
  length x.2 = 2%nat
  ∧ Promise_all x.2 = Some (inr tt)
  ∧ servers x.1 !! "s1"%string = None
  ∧ servers x.1 !! "s2"%string = None
  ∧ (0%nat ∈ killed x.1 ∧ 0%nat ∈ disposed x.1)
  ∧ (1%nat ∈ killed x.1 ∧ 1%nat ∈ disposed x.1)
  ∧ ((0%nat, Request "shutdown" JNull) ∈ sent (stopAllServers ["s1"; "s2"]%string
                                                  two_sessions).1
     ∨ (0%nat ∈ killed (stopAllServers ["s1"; "s2"]%string two_sessions).1
        ∧ 0%nat ∈ disposed (stopAllServers ["s1"; "s2"]%string two_sessions).1)).
Proof.
  intros x.
  assert (Hids : ["s1"; "s2"]%string ≡ₚ (map_to_list (servers two_sessions)).*1).
  { vm_compute. reflexivity. }
  destruct (stopAllServers_stops_every_session ["s1"; "s2"]%string
              [Settled 0 (Reject "shutdown timed out")] two_sessions Hids)
    as (Hlen & _ & _ & Hgone & Hkilled & _).
  destruct (stopAllServers_stops_every_session ["s1"; "s2"]%string [] two_sessions Hids)
    as (_ & _ & _ & _ & _ & Hstarted).
  assert (Hall : Promise_all x.2 = Some (inr tt)) by reflexivity.
  split; [exact Hlen |]. split; [exact Hall |].
  split; [apply (Hgone Hall); eexists; reflexivity |].
  split; [apply (Hgone Hall); eexists; reflexivity |].
  split; [apply (Hkilled Hall "s1"%string (session "s1" 0 ∅)); reflexivity |].
  split; [apply (Hkilled Hall "s2"%string (session "s2" 1 ∅)); reflexivity |].
  apply (Hstarted "s1"%string (session "s1" 0 ∅)). reflexivity.
Defined.

(** * Further properties *)

(** ** Segments of the awaited sends *)

Lemma segments_try_sendRequest (P : LSPManager → LSPManager → Prop) (R : Type)
    (c : nat) (method : string) (params : json)
    (ok : json → Task R) (handler : error → Task R) (m0 m : LSPManager) :
  (∀ err, segments P R m0 (handler err m)) →
  P m0 (transmit c (Request method params) m) →
  (∀ v m1, segments P R m1 (ok v m1)) →
  (∀ err m1, segments P R m1 (handler err m1)) →
  segments P R m0 (try_sendRequest c method params ok handler m).
Proof.
  intros Hthrow Hsend Hok Herr. unfold try_sendRequest.
  destruct (throwIfClosedOrDisposed c m); [apply Hthrow |].
  apply segments_pending; [exact Hsend |].
  intros [v | cause] m1; [apply Hok | apply Herr].
Qed.

Lemma segments_try_sendNotification (P : LSPManager → LSPManager → Prop) (R : Type)
    (c : nat) (method : string) (params : json)
    (ok : Task R) (handler : error → Task R) (m0 m : LSPManager) :
  (∀ err, segments P R m0 (handler err m)) →
  P m0 (transmit c (Notification method params) m) →
  (∀ m1, segments P R m1 (ok m1)) →
  (∀ err m1, segments P R m1 (handler err m1)) →
  segments P R m0 (try_sendNotification c method params ok handler m).
Proof.
  intros Hthrow Hsend Hok Herr. unfold try_sendNotification.
  destruct (throwIfClosedOrDisposed c m); [apply Hthrow |].
  apply segments_pending; [exact Hsend |].
  intros [v | cause] m1; [apply Hok | apply Herr].
Qed.

Lemma segments_state (P : LSPManager → LSPManager → Prop) (R : Type)
    (m : LSPManager) (x : LSPManager * Async R) :
  segments P R m x → P m x.1.
Proof. induction 1; simpl; auto. Qed.

Lemma segments_startServer_catch (P : LSPManager → LSPManager → Prop)
    (serverId : string) (err : error) (m0 m : LSPManager) :
  segments P unit m0 (stopServer serverId m) →
  segments P string m0 (startServer_catch serverId err m).
Proof.
  intros Hstop. unfold startServer_catch.
  destruct (stopServer serverId m) as [m' stopping'] eqn:Hcall.
  apply segments_detached; [exact Hstop |].
  apply segments_rejected. apply (segments_state _ _ _ _ Hstop).
Qed.

(** ** The shape of the registry *)

Lemma well_formed_new (pid : Z) : well_formed (new_LSPManager pid).
Proof. split; simpl; intros *; by rewrite lookup_empty. Qed.

(** A state whose sessions all come from sessions of a well-formed state,
    with the same identifier and handles and with documents that are either
    the old ones or well formed, is well formed. *)
Lemma well_formed_update (m m' : LSPManager) :
  well_formed m →
  (length (spawned m) ≤ length (spawned m'))%nat →
  (∀ k s', servers m' !! k = Some s' →
     ∃ s, servers m !! k = Some s
          ∧ id s' = id s ∧ process s' = process s ∧ connection s' = connection s
          ∧ ∀ u d, documents s' !! u = Some d →
                   documents s !! u = Some d ∨ (uri d = u ∧ 1 ≤ version d)) →
  well_formed m'.
Proof.
  intros [Hid Hhandle Hdistinct Hdocs] Hlen Hsub. split.
  - intros k s' Hs'. destruct (Hsub k s' Hs') as (s & Hs & -> & _). by eapply Hid.
  - intros k s' Hs'. destruct (Hsub k s' Hs') as (s & Hs & _ & -> & -> & _).
    destruct (Hhandle k s Hs) as [Hc Hp]. split; [done | lia].
  - intros k1 k2 s1' s2' Hs1' Hs2' Heq.
    destruct (Hsub k1 s1' Hs1') as (s1 & Hs1 & _ & Hp1 & _).
    destruct (Hsub k2 s2' Hs2') as (s2 & Hs2 & _ & Hp2 & _).
    apply (Hdistinct k1 k2 s1 s2 Hs1 Hs2). congruence.
  - intros k s' u d Hs' Hd. destruct (Hsub k s' Hs') as (s & Hs & _ & _ & _ & Hdoc).
    destruct (Hdoc u d Hd) as [Hold | Hnew]; [by eapply Hdocs | done].
Qed.

Lemma well_formed_same_servers (m m' : LSPManager) :
  servers m' = servers m →
  (length (spawned m) ≤ length (spawned m'))%nat →
  well_formed m → well_formed m'.
Proof.
  intros Hsame Hlen Hwf. apply (well_formed_update m m' Hwf Hlen).
  intros k s' Hs'. rewrite Hsame in Hs'. exists s'. repeat split; auto.
Qed.

Lemma well_formed_delete (serverId : string) (m m1 : LSPManager) :
  servers m1 = delete serverId (servers m) →
  (length (spawned m) ≤ length (spawned m1))%nat →
  well_formed m → well_formed m1.
Proof.
  intros Hdel Hlen Hwf. apply (well_formed_update m m1 Hwf Hlen).
  intros k s' Hs'. rewrite Hdel in Hs'. apply lookup_delete_Some in Hs' as [_ Hs'].
  exists s'. repeat split; auto.
Qed.

Lemma well_formed_alter (f : LSPServerInfo → LSPServerInfo) (serverId : string)
    (m m1 : LSPManager) :
  servers m1 = alter f serverId (servers m) →
  (length (spawned m) ≤ length (spawned m1))%nat →
  (∀ s, servers m !! serverId = Some s →
     id (f s) = id s ∧ process (f s) = process s ∧ connection (f s) = connection s
     ∧ ∀ u d, documents (f s) !! u = Some d →
              documents s !! u = Some d ∨ (uri d = u ∧ 1 ≤ version d)) →
  well_formed m → well_formed m1.
Proof.
  intros Halter Hlen Hf Hwf. apply (well_formed_update m m1 Hwf Hlen).
  intros k s' Hs'. rewrite Halter in Hs'.
  destruct (decide (serverId = k)) as [-> | Hne].
  - rewrite lookup_alter_eq in Hs'.
    destruct (servers m !! k) as [s |] eqn:Hs; [| discriminate].
    injection Hs' as <-. exists s. split; [done |]. by apply Hf.
  - rewrite lookup_alter_ne in Hs' by done. exists s'. repeat split; auto.
Qed.

Lemma well_formed_register (serverId language workspaceUri command : string)
    (args : list string) (m : LSPManager) :
  well_formed m →
  well_formed
    (with_servers
       (insert serverId
          {| id := serverId; language := language; workspaceUri := workspaceUri;
             process := length (spawned m); connection := length (spawned m);
             documents := ∅; initialized := false |})
       (spawn command args m)).
Proof.
  intros [Hid Hhandle Hdistinct Hdocs]. split; simpl.
  - intros k s Hs. apply lookup_insert_Some in Hs as [[<- <-] | [_ Hs]]; [done |].
    by eapply Hid.
  - intros k s Hs. rewrite length_app. simpl.
    apply lookup_insert_Some in Hs as [[<- <-] | [_ Hs]]; simpl; [split; [done | lia] |].
    destruct (Hhandle k s Hs). split; [done | lia].
  - intros k1 k2 s1 s2 Hs1 Hs2 Heq.
    apply lookup_insert_Some in Hs1 as [[<- <-] | [Hne1 Hs1]];
      apply lookup_insert_Some in Hs2 as [[<- <-] | [Hne2 Hs2]]; simpl in *.
    + done.
    + destruct (Hhandle _ _ Hs2). lia.
    + destruct (Hhandle _ _ Hs1). lia.
    + by eapply Hdistinct.
  - intros k s u d Hs Hd. apply lookup_insert_Some in Hs as [[<- <-] | [_ Hs]].
    + simpl in Hd. by rewrite lookup_empty in Hd.
    + by eapply Hdocs.
Qed.

Lemma keeps_well_formed_transmit (c : nat) (msg : Message) (m0 m : LSPManager) :
  keeps_well_formed m0 m → keeps_well_formed m0 (transmit c msg m).
Proof.
  intros Hkeep Hwf. by apply (well_formed_same_servers m); [| | apply Hkeep].
Qed.

Lemma keeps_well_formed_finish (serverId : string) (server : LSPServerInfo)
    (m0 m : LSPManager) :
  keeps_well_formed m0 m →
  keeps_well_formed m0 (stopServer_finish serverId server m).1.
Proof.
  intros Hkeep Hwf. by apply (well_formed_delete serverId m); [| | apply Hkeep].
Qed.

Lemma stopServer_keeps_well_formed (serverId : string) (m0 m : LSPManager) :
  keeps_well_formed m0 m →
  segments keeps_well_formed unit m0 (stopServer serverId m).
Proof.
  intros Hkeep. unfold stopServer.
  destruct (servers m !! serverId) as [server |]; [| by apply segments_rejected].
  assert (Hfinish : ∀ m1 m2, keeps_well_formed m1 m2 →
            segments keeps_well_formed unit m1 (stopServer_finish serverId server m2)).
  { intros m1 m2 H12. apply segments_fulfilled.
    by apply (keeps_well_formed_finish serverId server). }
  assert (Hrefl : ∀ m1, keeps_well_formed m1 m1) by (by intros m1 Hwf).
  apply segments_try_sendRequest.
  - intros _. by apply Hfinish.
  - by apply keeps_well_formed_transmit.
  - intros _ m1. apply segments_try_sendNotification.
    + intros _. by apply Hfinish.
    + by apply keeps_well_formed_transmit.
    + intros m2. by apply Hfinish.
    + intros _ m2. by apply Hfinish.
  - intros _ m1. by apply Hfinish.
Qed.

Lemma startServer_keeps_well_formed (serverId language workspaceUri : string)
    (customCommand : option string) (customArgs : option (list string)) (m : LSPManager) :
  segments keeps_well_formed string m
    (startServer serverId language workspaceUri customCommand customArgs m).
Proof.
  assert (Hrefl : ∀ m1, keeps_well_formed m1 m1) by (by intros m1 Hwf).
  unfold startServer.
  destruct (resolveCommand language customCommand customArgs) as [e | [command args]];
    [by apply segments_rejected |].
  set (m2 := with_servers _ (spawn command args m)).
  assert (Hm2 : keeps_well_formed m m2).
  { intros Hwf. by apply well_formed_register. }
  assert (Hcatch : ∀ err m0 m1, keeps_well_formed m0 m1 →
            segments keeps_well_formed string m0 (startServer_catch serverId err m1)).
  { intros err m0 m1 H01. by apply segments_startServer_catch, stopServer_keeps_well_formed. }
  apply segments_try_sendRequest.
  - intros err. by apply Hcatch.
  - by apply keeps_well_formed_transmit.
  - intros _ m1. apply segments_try_sendNotification.
    + intros err. by apply Hcatch.
    + by apply keeps_well_formed_transmit.
    + intros m3. apply segments_fulfilled. intros Hwf.
      apply (well_formed_alter (with_initialized true) serverId m3); [done | done | | done].
      intros s _. repeat split; auto.
    + intros err m3. by apply Hcatch.
  - intros err m1. by apply Hcatch.
Qed.

Lemma request_keeps_well_formed (serverId method : string) (params : json)
    (m : LSPManager) :
  segments keeps_well_formed json m (request serverId method params m).
Proof.
  assert (Hrefl : ∀ m1, keeps_well_formed m1 m1) by (by intros m1 Hwf).
  unfold request.
  destruct (servers m !! serverId) as [server |]; [| by apply segments_rejected].
  apply segments_try_sendRequest; intros; try (by apply segments_fulfilled).
  by apply keeps_well_formed_transmit.
Qed.

Lemma keeps_well_formed_set_document (serverId fileUri : string) (d : TextDocument)
    (m : LSPManager) :
  uri d = fileUri → 1 ≤ version d →
  keeps_well_formed m (set_document serverId fileUri d m).
Proof.
  intros Huri Hversion Hwf.
  apply (well_formed_alter (with_documents (insert fileUri d)) serverId m);
    [done | done | | done].
  intros s _. repeat split; auto. intros u d' Hd'. simpl in Hd'.
  apply lookup_insert_Some in Hd' as [[<- <-] | [_ Hd']]; auto.
Qed.

Lemma keeps_well_formed_delete_document (serverId fileUri : string) (m : LSPManager) :
  keeps_well_formed m (delete_document serverId fileUri m).
Proof.
  intros Hwf.
  apply (well_formed_alter (with_documents (delete fileUri)) serverId m);
    [done | done | | done].
  intros s _. repeat split; auto. intros u d' Hd'. simpl in Hd'.
  apply lookup_delete_Some in Hd' as [_ Hd']. auto.
Qed.

Lemma notify_keeps_well_formed (c : nat) (method : string) (params : json)
    (m0 m : LSPManager) :
  keeps_well_formed m0 m →
  segments keeps_well_formed unit m0
    (try_sendNotification c method params (ret tt) throw m).
Proof.
  intros Hkeep.
  apply segments_try_sendNotification.
  - intros err. by apply segments_rejected.
  - by apply keeps_well_formed_transmit.
  - intros m1. apply segments_fulfilled. by intros Hwf.
  - intros err m1. apply segments_rejected. by intros Hwf.
Qed.

Lemma openDocument_keeps_well_formed (serverId fileUri content languageId : string)
    (m : LSPManager) :
  segments keeps_well_formed unit m (openDocument serverId fileUri content languageId m).
Proof.
  unfold openDocument.
  destruct (servers m !! serverId) as [server |];
    [| apply segments_rejected; by intros Hwf].
  apply notify_keeps_well_formed. by apply keeps_well_formed_set_document.
Qed.

Lemma updateDocument_keeps_well_formed (serverId fileUri content : string)
    (m : LSPManager) :
  segments keeps_well_formed unit m (updateDocument serverId fileUri content m).
Proof.
  unfold updateDocument.
  destruct (servers m !! serverId) as [server |] eqn:Hs;
    [| apply segments_rejected; by intros Hwf].
  destruct (documents server !! fileUri) as [document |] eqn:Hd;
    [| apply segments_rejected; by intros Hwf].
  apply notify_keeps_well_formed. intros Hwf.
  apply keeps_well_formed_set_document; [done | | done]. simpl.
  destruct (wf_documents m Hwf _ _ _ _ Hs Hd). lia.
Qed.

Lemma closeDocument_keeps_well_formed (serverId fileUri : string) (m : LSPManager) :
  segments keeps_well_formed unit m (closeDocument serverId fileUri m).
Proof.
  unfold closeDocument.
  destruct (servers m !! serverId) as [server |] eqn:Hs;
    [| apply segments_rejected; by intros Hwf].
  destruct (documents server !! fileUri) as [document |] eqn:Hd;
    [| apply segments_rejected; by intros Hwf].
  apply notify_keeps_well_formed. apply keeps_well_formed_delete_document.
Qed.

Lemma segments_restate (P : LSPManager → LSPManager → Prop) (R : Type)
    (m0 : LSPManager) (x : LSPManager * Async R) :
  segments P R m0 x → ∀ m2, P m0 m2 → segments P R m0 (m2, x.2).
Proof.
  induction 1 as [R m m' r HP | R m m' e HP | R m m' c k HP Hk IHk
                 | R m m' bg fg Hbg IHbg Hfg IHfg]; intros m2 HP2; simpl.
  - by apply segments_fulfilled.
  - by apply segments_rejected.
  - by apply segments_pending.
  - apply segments_detached; [by apply IHbg | by apply IHfg].
Qed.

Lemma segments_rebase (P : LSPManager → LSPManager → Prop) (R : Type)
    (m0 : LSPManager) (x : LSPManager * Async R) :
  segments P R m0 x → ∀ m1, P m1 x.1 → segments P R m1 x.
Proof.
  induction 1 as [R m m' r HP | R m m' e HP | R m m' c k HP Hk IHk
                 | R m m' bg fg Hbg IHbg Hfg IHfg]; intros m1 HP1; simpl in HP1.
  - by apply segments_fulfilled.
  - by apply segments_rejected.
  - by apply segments_pending.
  - apply segments_detached; [by apply IHbg | by apply IHfg].
Qed.

(** When the awaited promise settles right away, the call goes on with a
    segment started in the state the previous one left. *)
Lemma segments_resume (P : LSPManager → LSPManager → Prop) (R : Type)
    (m0 : LSPManager) (x : LSPManager * Async R) (o : settle) :
  (∀ m, P m m) →
  segments P R m0 x → segments P R x.1 (resume o x).
Proof.
  intros Hrefl Hseg. unfold resume.
  destruct Hseg as [R m m' r HP | R m m' e HP | R m m' c k HP Hk
                   | R m m' bg fg Hbg Hfg]; simpl.
  - by apply segments_fulfilled.
  - by apply segments_rejected.
  - apply Hk.
  - apply segments_detached.
    + apply (segments_rebase P unit m (m', bg) Hbg). apply Hrefl.
    + apply (segments_rebase P R m (m', fg) Hfg). apply Hrefl.
Qed.

Lemma segments_catch_log_cast (P : LSPManager → LSPManager → Prop) (R : Type)
    (m0 : LSPManager) (x : LSPManager * Async R) :
  segments P R m0 x →
  ∀ H : R = unit, segments P unit m0 (x.1, catch_log (eq_rect R Async x.2 unit H)).
Proof.
  induction 1 as [R m m' r HP | R m m' e HP | R m m' c k HP Hk IHk
                 | R m m' bg fg Hbg IHbg Hfg IHfg]; intros Heq; subst R; simpl.
  - by apply segments_fulfilled.
  - by apply segments_fulfilled.
  - apply segments_pending; [done |]. intros o m1.
    specialize (IHk o m1 eq_refl). simpl in IHk. by destruct (k o m1).
  - apply segments_detached; [done |]. apply (IHfg eq_refl).
Qed.

Lemma segments_catch_log (P : LSPManager → LSPManager → Prop)
    (m0 : LSPManager) (x : LSPManager * Async unit) :
  segments P unit m0 x → segments P unit m0 (x.1, catch_log x.2).
Proof. intros Hseg. apply (segments_catch_log_cast P unit m0 x Hseg eq_refl). Qed.

(** The promises of [stopAllServers] inherit what holds of the segments of
    [stopServer], for a relation that is reflexive and transitive. *)
Lemma stopAllServers_segments (P : LSPManager → LSPManager → Prop) :
  (∀ a b c, P a b → P b c → P a c) →
  (∀ serverId m0 m, P m0 m → segments P unit m0 (stopServer serverId m)) →
  ∀ (ids : list string) (m0 m : LSPManager) (ps : list (Async unit)),
    P m0 m →
    Forall (fun p => segments P unit m0 (m, p)) ps →
    let x := foldl (fun acc serverId =>
                      let '(m', p) := stopServer serverId acc.1 in
                      (m', acc.2 ++ [catch_log p])) (m, ps) ids in
    P m0 x.1 ∧ Forall (fun p => segments P unit m0 (x.1, p)) x.2.
Proof.
  intros Htrans Hstop ids.
  induction ids as [| serverId ids IH]; intros m0 m ps Hm Hps; simpl; [done |].
  pose proof (Hstop serverId m0 m Hm) as Hcall.
  destruct (stopServer serverId m) as [m' p] eqn:Heq.
  pose proof (segments_state _ _ _ _ Hcall) as Hm'. simpl in Hm'.
  apply IH; [done |]. simpl. apply Forall_app. split.
  - eapply Forall_impl; [exact Hps |]. intros q Hq.
    apply (segments_restate P unit m0 (m, q) Hq m' Hm').
  - constructor; [| constructor]. apply (segments_catch_log P m0 (m', p) Hcall).
Qed.

Lemma stopAllServers_keeps_well_formed (ids : list string) (m : LSPManager) :
  keeps_well_formed m (stopAllServers ids m).1
  ∧ Forall (fun p => segments keeps_well_formed unit m ((stopAllServers ids m).1, p))
      (stopAllServers ids m).2.
Proof.
  apply (stopAllServers_segments keeps_well_formed).
  - intros a b c Hab Hbc Hwf. auto.
  - intros serverId m0 m1. apply stopServer_keeps_well_formed.
  - by intros Hwf.
  - constructor.
Qed.

(** X1: the registry stays well formed. The manager starts well formed;
    every segment of every method, and of the stop that a failed start
    detaches, started in a well-formed state leaves a well-formed state, and
    so does every process or connection event. *)
Theorem well_formed_is_maintained :
  (∀ pid, well_formed (new_LSPManager pid))
  ∧ (∀ m serverId c method params,
       well_formed m →
       well_formed (on_process_exit serverId m)
       ∧ well_formed (on_process_error serverId m)
       ∧ well_formed (on_connection_close c m)
       ∧ well_formed (on_notification c method params m))
  ∧ (∀ m serverId language workspaceUri customCommand customArgs,
       segments keeps_well_formed string m
         (startServer serverId language workspaceUri customCommand customArgs m))
  ∧ (∀ m serverId, segments keeps_well_formed unit m (stopServer serverId m))
  ∧ (∀ m ids,
       keeps_well_formed m (stopAllServers ids m).1
       ∧ Forall (fun p => segments keeps_well_formed unit m ((stopAllServers ids m).1, p))
           (stopAllServers ids m).2)
  ∧ (∀ m serverId fileUri,
       segments keeps_well_formed json m (getDiagnostics serverId fileUri m))
  ∧ (∀ m serverId fileUri line character includeDeclaration newName,
       segments keeps_well_formed json m (getCompletions serverId fileUri line character m)
       ∧ segments keeps_well_formed json m (getHover serverId fileUri line character m)
       ∧ segments keeps_well_formed json m (goToDefinition serverId fileUri line character m)
       ∧ segments keeps_well_formed json m
           (findReferences serverId fileUri line character includeDeclaration m)
       ∧ segments keeps_well_formed json m
           (renameSymbol serverId fileUri line character newName m)
       ∧ segments keeps_well_formed json m (formatDocument serverId fileUri m)
       ∧ segments keeps_well_formed json m (getDocumentSymbols serverId fileUri m))
  ∧ (∀ m serverId fileUri content languageId,
       segments keeps_well_formed unit m
         (openDocument serverId fileUri content languageId m)
       ∧ segments keeps_well_formed unit m (updateDocument serverId fileUri content m)
       ∧ segments keeps_well_formed unit m (closeDocument serverId fileUri m)).
Proof.
  split; [apply well_formed_new |].
  split.
  { intros m serverId c method params Hwf.
    split; [by apply (well_formed_delete serverId m) |].
    split; [by apply (well_formed_delete serverId m) |].
    split; [by apply (well_formed_same_servers m) | done]. }
  split; [intros; apply startServer_keeps_well_formed |].
  split; [intros; apply stopServer_keeps_well_formed; by intros Hwf |].
  split; [intros; apply stopAllServers_keeps_well_formed |].
  split.
  { intros m serverId fileUri. unfold getDiagnostics.
    destruct (servers m !! serverId);
      [apply segments_fulfilled | apply segments_rejected]; by intros Hwf. }
  split.
  { intros. repeat split; apply request_keeps_well_formed. }
  intros. split; [apply openDocument_keeps_well_formed |].
  split; [apply updateDocument_keeps_well_formed | apply closeDocument_keeps_well_formed].
Qed.

Lemma well_formed_is_maintained_witness :
  let x := startServer "7d0f" "python" "file:///tmp/proj" None None idle in
  well_formed x.1
  ∧ well_formed (resume (Resolve JNull) (resume (Resolve JNull) x)).1
  ∧ well_formed (on_process_exit "7d0f" x.1).
Proof.
  intros x.
  destruct well_formed_is_maintained as (Hnew & Hevent & Hstart & _).
  assert (Hrefl : ∀ m, keeps_well_formed m m) by (by intros m Hwf).
  pose proof (Hstart idle "7d0f"%string "python"%string "file:///tmp/proj"%string
                None None) as Hseg.
  fold x in Hseg.
  assert (Hx : well_formed x.1).
  { apply (segments_state _ _ _ _ Hseg). apply (Hnew 4242). }
  split; [exact Hx |]. split.
  - pose proof (segments_resume _ _ _ _ (Resolve JNull) Hrefl Hseg) as Hseg1.
    pose proof (segments_resume _ _ _ _ (Resolve JNull) Hrefl Hseg1) as Hseg2.
    apply (segments_state _ _ _ _ Hseg2). apply (segments_state _ _ _ _ Hseg1 Hx).
  - by apply (Hevent x.1 "7d0f"%string 0%nat ""%string JNull).
Defined.

(** ** What a stop touches *)

Lemma stop_footprint_refl (a : string) (sa : LSPServerInfo) (m : LSPManager) :
  stop_footprint a sa m m.
Proof. unfold stop_footprint. repeat split; auto. Qed.

Lemma stop_footprint_transmit (a : string) (sa : LSPServerInfo) (msg : Message)
    (m : LSPManager) :
  stop_footprint a sa m (transmit (connection sa) msg m).
Proof. unfold stop_footprint. simpl. repeat split; eauto. Qed.

Lemma stop_footprint_finish (a : string) (sa : LSPServerInfo) (m : LSPManager) :
  stop_footprint a sa m (stopServer_finish a sa m).1.
Proof.
  unfold stop_footprint. simpl. repeat split; auto.
  intros k Hne. by apply lookup_delete_ne.
Qed.

Lemma stopServer_footprint (a : string) (sa : LSPServerInfo) (m : LSPManager) :
  servers m !! a = Some sa →
  segments (stop_footprint a sa) unit m (stopServer a m).
Proof.
  intros Hs. unfold stopServer. rewrite Hs.
  assert (Hfinish : ∀ m1, segments (stop_footprint a sa) unit m1 (stopServer_finish a sa m1)).
  { intros m1. apply segments_fulfilled. apply stop_footprint_finish. }
  apply segments_try_sendRequest.
  - intros _. apply Hfinish.
  - apply stop_footprint_transmit.
  - intros _ m1. apply segments_try_sendNotification.
    + intros _. apply Hfinish.
    + apply stop_footprint_transmit.
    + apply Hfinish.
    + intros _. apply Hfinish.
  - intros _. apply Hfinish.
Qed.

(** X2: stopping session [a] leaves every other session alone. In a
    well-formed registry, a session [b] other than [a] has another process
    and another connection than [a]; and every segment of [stopServer a]
    changes no registry entry but the one under [a], spawns nothing, sends
    at most one message, on the connection of [a], and disposes and kills
    nothing but the connection and the process of [a]. *)
Theorem stopServer_leaves_other_sessions
    (a b : string) (sa sb : LSPServerInfo) (m : LSPManager) :
  well_formed m →
  servers m !! a = Some sa →
  servers m !! b = Some sb →
  a ≠ b →
  process sb ≠ process sa
  ∧ connection sb ≠ connection sa
  ∧ segments (stop_footprint a sa) unit m (stopServer a m).
Proof.
  intros Hwf Ha Hb Hne.
  assert (Hp : process sb ≠ process sa).
  { intros Heq. apply Hne. symmetry. by apply (wf_distinct m Hwf b a sb sa). }
  split; [exact Hp |]. split; [| by apply stopServer_footprint].
  destruct (wf_handle m Hwf a sa Ha) as [-> _].
  destruct (wf_handle m Hwf b sb Hb) as [-> _]. exact Hp.
Qed.

Lemma well_formed_started_twice : well_formed started_twice.
Proof.
  unfold started_twice.
  apply (segments_state _ _ _ _ (startServer_keeps_well_formed _ _ _ _ _ _)).
  apply (segments_state _ _ _ _ (startServer_keeps_well_formed _ _ _ _ _ _)).
  apply (well_formed_new 4242).
Qed.

Lemma stopServer_leaves_other_sessions_witness :
  let sa := {| id := "s1"; language := "typescript"; workspaceUri := "file:///tmp/proj";
               process := 0; connection := 0; documents := ∅; initialized := false |} in
  let sb := {| id := "s2"; language := "python"; workspaceUri := "file:///tmp/proj";
               process := 1; connection := 1; documents := ∅; initialized := false |} in
  process sb ≠ process sa
  ∧ connection sb ≠ connection sa
  ∧ segments (stop_footprint "s1" sa) unit started_twice (stopServer "s1" started_twice).
Proof.
  intros sa sb.
  apply (stopServer_leaves_other_sessions "s1" "s2" sa sb started_twice).
  - apply well_formed_started_twice.
  - reflexivity.
  - reflexivity.
  - discriminate.
Defined.

(** ** What the document methods touch *)

Lemma document_footprint_refl (serverId fileUri : string) (c : nat) (m : LSPManager) :
  document_footprint serverId fileUri c m m.
Proof.
  unfold document_footprint. repeat split; auto.
  intros s Hs. exists s. repeat split; auto.
Qed.

Lemma document_footprint_alter (serverId fileUri : string) (c : nat)
    (f : gmap string TextDocument → gmap string TextDocument) (m m1 : LSPManager) :
  (∀ docs u, u ≠ fileUri → f docs !! u = docs !! u) →
  servers m1 = alter (with_documents f) serverId (servers m) →
  spawned m1 = spawned m → closed m1 = closed m →
  disposed m1 = disposed m → killed m1 = killed m →
  (sent m1 = sent m ∨ ∃ msg, sent m1 = sent m ++ [(c, msg)]) →
  document_footprint serverId fileUri c m m1.
Proof.
  intros Hf Hservers Hspawned Hclosed Hdisposed Hkilled Hsent.
  unfold document_footprint. rewrite Hservers.
  split; [intros k Hne; by apply lookup_alter_ne |].
  split.
  { intros s Hs. exists (with_documents f s). rewrite lookup_alter_eq, Hs.
    simpl. repeat split; auto. }
  split; [intros Hs; by rewrite lookup_alter_eq, Hs |].
  repeat split; auto.
Qed.

Lemma notify_document_footprint (serverId fileUri method : string) (params : json)
    (c : nat) (f : gmap string TextDocument → gmap string TextDocument)
    (m : LSPManager) :
  (∀ docs u, u ≠ fileUri → f docs !! u = docs !! u) →
  segments (document_footprint serverId fileUri c) unit m
    (try_sendNotification c method params (ret tt) throw
       (with_servers (alter (with_documents f) serverId) m)).
Proof.
  intros Hf. apply segments_try_sendNotification.
  - intros err. apply segments_rejected.
    apply (document_footprint_alter _ _ _ f); auto.
  - apply (document_footprint_alter _ _ _ f); simpl; eauto.
  - intros m1. apply segments_fulfilled. apply document_footprint_refl.
  - intros err m1. apply segments_rejected. apply document_footprint_refl.
Qed.

(** X3: a document method touches one document of one session. For a
    registered session, every segment of openDocument, updateDocument and
    closeDocument leaves every other session's entry, every other Document
    State of the session and every field of the session but its document map
    as they were, spawns, disposes and kills nothing, and hands at most one
    message to the session's connection. *)
Theorem document_methods_touch_one_document
    (serverId fileUri content languageId : string) (server : LSPServerInfo)
    (m : LSPManager) :
  servers m !! serverId = Some server →
  segments (document_footprint serverId fileUri (connection server)) unit m
    (openDocument serverId fileUri content languageId m)
  ∧ segments (document_footprint serverId fileUri (connection server)) unit m
      (updateDocument serverId fileUri content m)
  ∧ segments (document_footprint serverId fileUri (connection server)) unit m
      (closeDocument serverId fileUri m).
Proof.
  intros Hs.
  assert (Hinsert : ∀ d (docs : gmap string TextDocument) u,
            u ≠ fileUri → <[fileUri := d]> docs !! u = docs !! u).
  { intros d docs u Hne. by apply lookup_insert_ne. }
  assert (Hdelete : ∀ (docs : gmap string TextDocument) u,
            u ≠ fileUri → delete fileUri docs !! u = docs !! u).
  { intros docs u Hne. by apply lookup_delete_ne. }
  split; [| split].
  - unfold openDocument. rewrite Hs.
    apply (notify_document_footprint _ _ _ _ _ (insert fileUri _)). apply Hinsert.
  - unfold updateDocument. rewrite Hs.
    destruct (documents server !! fileUri) as [document |].
    + apply (notify_document_footprint _ _ _ _ _ (insert fileUri _)). apply Hinsert.
    + apply segments_rejected. apply document_footprint_refl.
  - unfold closeDocument. rewrite Hs.
    destruct (documents server !! fileUri) as [document |].
    + apply (notify_document_footprint _ _ _ _ _ (delete fileUri)). apply Hdelete.
    + apply segments_rejected. apply document_footprint_refl.
Qed.

Lemma document_methods_touch_one_document_witness :
  let c := 0%nat in
  segments (document_footprint "s1" "file:///tmp/proj/b.ts" c) unit one_document
    (openDocument "s1" "file:///tmp/proj/b.ts" "let y = 1;" "typescript" one_document)
  ∧ segments (document_footprint "s1" "file:///tmp/proj/a.ts" c) unit one_document
      (updateDocument "s1" "file:///tmp/proj/a.ts" "let x = 4;" one_document)
  ∧ segments (document_footprint "s1" "file:///tmp/proj/a.ts" c) unit one_document
      (closeDocument "s1" "file:///tmp/proj/a.ts" one_document).
Proof.
  intros c.
  assert (Hs : servers one_document !! "s1"%string
               = Some (session "s1" 0
                         {[ "file:///tmp/proj/a.ts"%string :=
                              TextDocument_create "file:///tmp/proj/a.ts" "typescript" 3
                                "let x = 3;" ]}))
    by reflexivity.
  destruct (document_methods_touch_one_document "s1" "file:///tmp/proj/b.ts" "let y = 1;"
              "typescript" _ one_document Hs) as (Hopen & _ & _).
  destruct (document_methods_touch_one_document "s1" "file:///tmp/proj/a.ts" "let x = 4;"
              "typescript" _ one_document Hs) as (_ & Hupdate & Hclose).
  split; [exact Hopen |]. split; [exact Hupdate | exact Hclose].
Defined.

(** ** Requests pass through *)

Lemma request_passes_through (serverId method : string) (params : json)
    (server : LSPServerInfo) (m : LSPManager) :
  servers m !! serverId = Some server →
  passes_through (request serverId method params) (connection server)
    (Request method params) m.
Proof.
  intros Hs. unfold passes_through, request, try_sendRequest. rewrite Hs.
  destruct (throwIfClosedOrDisposed _ m) eqn:Hthrow; simpl.
  - repeat split; auto.
  - repeat split; auto. by intros [v | cause] m'.
Qed.

(** X4: the request methods are a pass-through. On a registered session each
    of the seven either finds the connection closed or disposed and answers
    null with the manager unchanged, or hands exactly its one request to the
    session's connection and changes nothing else; when the answer comes,
    the result is returned as it is (null for a failure) and the state the
    call is resumed in is left untouched. *)
Theorem requests_pass_through
    (serverId fileUri newName : string) (line character : Z) (includeDeclaration : bool)
    (server : LSPServerInfo) (m : LSPManager) :
  servers m !! serverId = Some server →
  let c := connection server in
  passes_through (getCompletions serverId fileUri line character) c
    (Request "textDocument/completion"
       (JObj [textDocument fileUri; position line character])) m
  ∧ passes_through (getHover serverId fileUri line character) c
      (Request "textDocument/hover"
         (JObj [textDocument fileUri; position line character])) m
  ∧ passes_through (goToDefinition serverId fileUri line character) c
      (Request "textDocument/definition"
         (JObj [textDocument fileUri; position line character])) m
  ∧ passes_through (findReferences serverId fileUri line character includeDeclaration) c
      (Request "textDocument/references"
         (JObj [textDocument fileUri; position line character;
                ("context", JObj [("includeDeclaration", JBool includeDeclaration)])])) m
  ∧ passes_through (renameSymbol serverId fileUri line character newName) c
      (Request "textDocument/rename"
         (JObj [textDocument fileUri; position line character;
                ("newName", JStr newName)])) m
  ∧ passes_through (formatDocument serverId fileUri) c
      (Request "textDocument/formatting"
         (JObj [textDocument fileUri;
                ("options", JObj [("tabSize", JNum 2); ("insertSpaces", JBool true)])])) m
  ∧ passes_through (getDocumentSymbols serverId fileUri) c
      (Request "textDocument/documentSymbol" (JObj [textDocument fileUri])) m.
Proof.
  intros Hs c.
  do 6 (split; [eapply request_passes_through; exact Hs |]).
  eapply request_passes_through; exact Hs.
Qed.

Lemma requests_pass_through_witness :
  passes_through (getHover "s1" "file:///tmp/proj/a.ts" 0 4) 0
    (Request "textDocument/hover"
       (JObj [textDocument "file:///tmp/proj/a.ts"; position 0 4])) one_session
  ∧ passes_through (getDocumentSymbols "s2" "file:///tmp/proj/a.ts") 1
      (Request "textDocument/documentSymbol"
         (JObj [textDocument "file:///tmp/proj/a.ts"])) two_sessions.
Proof.
  destruct (requests_pass_through "s1" "file:///tmp/proj/a.ts" "y" 0 4 true
              (session "s1" 0 ∅) one_session) as (_ & Hhover & _).
  { reflexivity. }
  destruct (requests_pass_through "s2" "file:///tmp/proj/a.ts" "y" 0 4 true
              (session "s2" 1 ∅) two_sessions) as (_ & _ & _ & _ & _ & _ & Hsymbols).
  { reflexivity. }
  split; [exact Hhover | exact Hsymbols].
Defined.

(** ** Unknown sessions *)

(** X5: every method that takes a session identifier looks the session up
    first. For an identifier that is not registered, getDiagnostics, the
    seven request methods, openDocument, updateDocument and closeDocument
    are all refused with SessionNotFound for that identifier, in the state
    they were called in: nothing is recorded and nothing is sent. For
    updateDocument and closeDocument this comes before DocumentNotOpen. *)
Theorem unknown_session_is_refused
    (serverId fileUri content languageId newName : string) (line character : Z)
    (includeDeclaration : bool) (m : LSPManager) :
  servers m !! serverId = None →
  let refused {R} (t : Task R) := t m = (m, Rejected (SessionNotFound serverId)) in
  refused (getDiagnostics serverId fileUri)
  ∧ refused (getCompletions serverId fileUri line character)
  ∧ refused (getHover serverId fileUri line character)
  ∧ refused (goToDefinition serverId fileUri line character)
  ∧ refused (findReferences serverId fileUri line character includeDeclaration)
  ∧ refused (renameSymbol serverId fileUri line character newName)
  ∧ refused (formatDocument serverId fileUri)
  ∧ refused (getDocumentSymbols serverId fileUri)
  ∧ refused (openDocument serverId fileUri content languageId)
  ∧ refused (updateDocument serverId fileUri content)
  ∧ refused (closeDocument serverId fileUri).
Proof.
  intros Hs refused. unfold refused.
  unfold getDiagnostics, getCompletions, getHover, goToDefinition, findReferences,
    renameSymbol, formatDocument, getDocumentSymbols, request, openDocument,
    updateDocument, closeDocument.
  rewrite Hs. repeat split.
Qed.

Lemma unknown_session_is_refused_witness :
  getHover "s9" "file:///tmp/proj/a.ts" 0 4 one_document
    = (one_document, Rejected (SessionNotFound "s9"))
  ∧ updateDocument "s9" "file:///tmp/proj/a.ts" "let x = 4;" one_document
    = (one_document, Rejected (SessionNotFound "s9"))
  ∧ message (SessionNotFound "s9") = "Server s9 not found"%string.
Proof.
  destruct (unknown_session_is_refused "s9" "file:///tmp/proj/a.ts" "let x = 4;"
              "typescript" "y" 0 4 true one_document)
    as (_ & _ & Hhover & _ & _ & _ & _ & _ & _ & Hupdate & _).
  { reflexivity. }
  split; [exact Hhover |]. split; [exact Hupdate | reflexivity].
Defined.

(** ** The life of a document *)

Lemma closeDocument_open (serverId fileUri : string)
    (server : LSPServerInfo) (d : TextDocument) (m : LSPManager) :
  servers m !! serverId = Some server →
  documents server !! fileUri = Some d →
  closeDocument serverId fileUri m
  = try_sendNotification (connection server) "textDocument/didClose"
      (didClose fileUri) (ret tt) throw (delete_document serverId fileUri m).
Proof. intros Hs Hd. unfold closeDocument. by rewrite Hs, Hd. Qed.

Lemma accepted_closeDocument (serverId fileUri : string) (o : settle)
    (server : LSPServerInfo) (d : TextDocument) (m m' : LSPManager) (r : unit) :
  servers m !! serverId = Some server →
  documents server !! fileUri = Some d →
  accepted (closeDocument serverId fileUri) o m = Some (m', r) →
  m' = transmit (connection server)
         (Notification "textDocument/didClose" (didClose fileUri))
         (delete_document serverId fileUri m).
Proof.
  intros Hs Hd Hacc.
  rewrite (accepted_ext (closeDocument serverId fileUri) _ o m _
             (closeDocument_open _ _ _ _ _ Hs Hd)) in Hacc.
  by apply accepted_try_sendNotification in Hacc.
Qed.

Lemma alter_documents_insert_insert (serverId fileUri : string) (d1 d2 : TextDocument)
    (registry : gmap string LSPServerInfo) :
  alter (with_documents (insert fileUri d2)) serverId
    (alter (with_documents (insert fileUri d1)) serverId registry)
  = alter (with_documents (insert fileUri d2)) serverId registry.
Proof.
  rewrite alter_alter_eq. apply alter_ext. intros s _.
  unfold with_documents. simpl. by rewrite insert_insert_eq.
Qed.

Lemma alter_documents_delete_insert (serverId fileUri : string) (d : TextDocument)
    (registry : gmap string LSPServerInfo) :
  alter (with_documents (delete fileUri)) serverId
    (alter (with_documents (insert fileUri d)) serverId registry)
  = alter (with_documents (delete fileUri)) serverId registry.
Proof.
  rewrite alter_alter_eq. apply alter_ext. intros s _.
  unfold with_documents. simpl. by rewrite delete_insert_eq.
Qed.

(** Accepted updates change the registry only in the Document State under
    [fileUri] and nothing else but the messages sent. *)
Lemma updateAll_registry (serverId fileUri : string) (cs : list (string * settle)) :
  ∀ (registry : gmap string LSPServerInfo) (server : LSPServerInfo)
    (d : TextDocument) (m m' : LSPManager),
    registry !! serverId = Some server →
    servers m = alter (with_documents (insert fileUri d)) serverId registry →
    updateAll serverId fileUri cs m = Some m' →
    (∃ d', servers m' = alter (with_documents (insert fileUri d')) serverId registry)
    ∧ spawned m' = spawned m ∧ closed m' = closed m
    ∧ disposed m' = disposed m ∧ killed m' = killed m.
Proof.
  induction cs as [| [content o] cs IH]; intros registry server d m m' Hreg Hm Hrun;
    simpl in Hrun.
  - injection Hrun as <-. split; [by exists d | done].
  - destruct (accepted _ o m) as [[m1 r] |] eqn:Hacc; [| discriminate].
    assert (Hs : servers m !! serverId = Some (with_documents (insert fileUri d) server)).
    { by rewrite Hm, lookup_alter_eq, Hreg. }
    assert (Hd : documents (with_documents (insert fileUri d) server) !! fileUri = Some d)
      by apply lookup_insert_eq.
    apply (accepted_updateDocument _ _ _ _ _ _ _ _ _ Hs Hd) in Hacc.
    assert (Hm1 : servers m1
                  = alter (with_documents
                             (insert fileUri
                                (TextDocument_create fileUri (languageId d)
                                   (version d + 1) content))) serverId registry).
    { rewrite Hacc. simpl. rewrite Hm. apply alter_documents_insert_insert. }
    destruct (IH registry server _ m1 m' Hreg Hm1 Hrun) as (Hd' & Hsp & Hcl & Hdi & Hki).
    split; [exact Hd' |]. rewrite Hsp, Hcl, Hdi, Hki, Hacc. done.
Qed.

(** X6: a document opened, updated and closed leaves no trace in the
    registry. On a registered session, when openDocument, then any number of
    updates, then closeDocument of one URI are all accepted, the Document
    State under that URI is gone and every other entry and document is as
    before the open; if the URI was not open before, the registry is exactly
    as before. The connection was handed didOpen, the didChange of each
    update and didClose, in that order, and nothing was spawned, disposed
    or killed. *)
Theorem open_update_close_round_trip
    (serverId fileUri content languageId : string) (o oc : settle)
    (cs : list (string * settle)) (server : LSPServerInfo) (m m0 m1 m2 : LSPManager) :
  servers m !! serverId = Some server →
  accepted (openDocument serverId fileUri content languageId) o m = Some (m0, tt) →
  updateAll serverId fileUri cs m0 = Some m1 →
  accepted (closeDocument serverId fileUri) oc m1 = Some (m2, tt) →
  servers m2 = alter (with_documents (delete fileUri)) serverId (servers m)
  ∧ (documents server !! fileUri = None → servers m2 = servers m)
  ∧ sent m2 = sent m
              ++ (connection server,
                  Notification "textDocument/didOpen" (didOpen fileUri languageId 1 content))
              :: didChanges (connection server) fileUri 1 cs.*1
              ++ [(connection server,
                   Notification "textDocument/didClose" (didClose fileUri))]
  ∧ spawned m2 = spawned m ∧ disposed m2 = disposed m ∧ killed m2 = killed m.
Proof.
  intros Hs Hopen Hrun Hclose.
  apply (accepted_openDocument _ _ _ _ _ _ _ _ _ Hs) in Hopen.
  set (d0 := TextDocument_create fileUri languageId 1 content) in *.
  assert (Hm0 : servers m0 = alter (with_documents (insert fileUri d0)) serverId (servers m)).
  { by rewrite Hopen. }
  assert (Hs0 : servers m0 !! serverId = Some (with_documents (insert fileUri d0) server)).
  { by rewrite Hm0, lookup_alter_eq, Hs. }
  assert (Hd0 : documents (with_documents (insert fileUri d0) server) !! fileUri = Some d0)
    by apply lookup_insert_eq.
  destruct (updateAll_registry _ _ _ _ _ _ _ _ Hs Hm0 Hrun)
    as ([d1 Hm1] & Hsp & Hcl & Hdi & Hki).
  destruct (updateAll_versions _ _ _ _ _ _ _ Hs0 Hd0 eq_refl Hrun)
    as (server1 & Hs1 & Hc1 & Hd1 & Hsent1).
  apply (accepted_closeDocument _ _ _ _ _ _ _ _ Hs1 Hd1) in Hclose.
  assert (Hm2 : servers m2 = alter (with_documents (delete fileUri)) serverId (servers m)).
  { rewrite Hclose. simpl. rewrite Hm1. apply alter_documents_delete_insert. }
  split; [exact Hm2 |]. split.
  { intros Hnone. rewrite Hm2. apply alter_id. intros s Hs'.
    assert (s = server) as -> by congruence.
    destruct server as [i l w p c docs ini]. unfold with_documents. simpl in *.
    by rewrite delete_id. }
  split.
  { rewrite Hclose. simpl. rewrite Hsent1, Hopen, Hc1. simpl.
    by rewrite <- !app_assoc. }
  rewrite Hclose. simpl. rewrite Hsp, Hdi, Hki, Hopen. done.
Qed.

Lemma open_update_close_round_trip_witness :
  ∃ m0 m1 m2,
    accepted (openDocument "s1" "file:///tmp/proj/a.ts" "let x = 1;" "typescript")
      (Resolve JNull) one_session = Some (m0, tt)
    ∧ updateAll "s1" "file:///tmp/proj/a.ts" [("let x = 2;", Resolve JNull)]%string m0
      = Some m1
    ∧ accepted (closeDocument "s1" "file:///tmp/proj/a.ts") (Resolve JNull) m1
      = Some (m2, tt)
    ∧ servers m2 = servers one_session
    ∧ sent m2
      = [(0%nat, Notification "textDocument/didOpen"
                   (didOpen "file:///tmp/proj/a.ts" "typescript" 1 "let x = 1;"));
         (0%nat, Notification "textDocument/didChange"
                   (didChange "file:///tmp/proj/a.ts" 2 "let x = 2;"));
         (0%nat, Notification "textDocument/didClose"
                   (didClose "file:///tmp/proj/a.ts"))].
Proof.
  eexists. eexists. eexists.
  split; [reflexivity |]. split; [reflexivity |]. split; [reflexivity |].
  destruct (open_update_close_round_trip "s1" "file:///tmp/proj/a.ts" "let x = 1;"
              "typescript" (Resolve JNull) (Resolve JNull)
              [("let x = 2;", Resolve JNull)]%string
              (session "s1" 0 ∅) one_session _ _ _
              eq_refl eq_refl eq_refl eq_refl) as (_ & Hsame & Hsent & _).
  split; [apply Hsame; reflexivity | exact Hsent].
Defined.

(** ** Starting a session: the handshake *)

Lemma resolveCommand_custom (language command : string) (customArgs : option (list string)) :
  command ≠ ""%string →
  resolveCommand language (Some command) customArgs = inr (command, default [] customArgs).
Proof. intros Hne. by destruct command. Qed.

Lemma resolveCommand_default (language : string) (customCommand : option string)
    (customArgs : option (list string)) :
  customCommand = None ∨ customCommand = Some ""%string →
  resolveCommand language customCommand customArgs
  = match languageServerCommands !! language with
    | Some serverConfig => inr serverConfig
    | None => inl (UnsupportedLanguage language)
    end.
Proof. by intros [-> | ->]. Qed.

Lemma startServer_resolved (serverId language workspaceUri command : string)
    (args : list string) (customCommand : option string)
    (customArgs : option (list string)) (m : LSPManager) :
  resolveCommand language customCommand customArgs = inr (command, args) →
  throwIfClosedOrDisposed (length (spawned m)) m = None →
  let h := length (spawned m) in
  startServer serverId language workspaceUri customCommand customArgs m
  = (transmit h (Request "initialize" (initParams (pid m) workspaceUri))
       (with_servers (insert serverId (registered serverId language workspaceUri h))
          (spawn command args m)),
     Pending (h, Request "initialize" (initParams (pid m) workspaceUri))
       (fun o =>
          match o with
          | Resolve _ =>
              try_sendNotification h "initialized" (JObj [])
                (startServer_initialized serverId) (startServer_catch serverId)
          | Reject cause => startServer_catch serverId (ProtocolFailure cause)
          end)).
Proof.
  intros Hresolve Hopen h. unfold startServer. rewrite Hresolve. unfold try_sendRequest.
  change (throwIfClosedOrDisposed (length (spawned m)) (with_servers _ (spawn command args m)))
    with (throwIfClosedOrDisposed (length (spawned m)) m).
  by rewrite Hopen.
Qed.

(** X7: what [startServer] does before it first waits. A custom command
    that is not empty is spawned as given, with the custom arguments or
    none, whatever the language; without one the command of the table is
    spawned. In both cases exactly one process is spawned and the session is
    registered under the generated identifier before the handshake, not
    initialized and with no document, every other entry being kept; the
    initialize request, with the process id and the workspace root, is
    handed to the new connection and the call waits for its answer. Nothing
    is killed or disposed. *)
Theorem startServer_registers_before_handshake
    (serverId language workspaceUri command : string) (args : list string)
    (customCommand : option string) (customArgs : option (list string))
    (m : LSPManager) :
  (∃ custom, customCommand = Some custom ∧ custom ≠ ""%string
             ∧ command = custom ∧ args = default [] customArgs)
  ∨ ((customCommand = None ∨ customCommand = Some ""%string)
     ∧ languageServerCommands !! language = Some (command, args)) →
  throwIfClosedOrDisposed (length (spawned m)) m = None →
  let h := length (spawned m) in
  let x := startServer serverId language workspaceUri customCommand customArgs m in
  spawned x.1 = spawned m ++ [(command, args)]
  ∧ servers x.1 = <[serverId := registered serverId language workspaceUri h]> (servers m)
  ∧ sent x.1 = sent m ++ [(h, Request "initialize" (initParams (pid m) workspaceUri))]
  ∧ killed x.1 = killed m ∧ disposed x.1 = disposed m ∧ closed x.1 = closed m
  ∧ ∃ k, x.2 = Pending (h, Request "initialize" (initParams (pid m) workspaceUri)) k.
Proof.
  intros Hcommand Hopen h x.
  assert (Hresolve : resolveCommand language customCommand customArgs = inr (command, args)).
  { destruct Hcommand as [(custom & -> & Hne & -> & ->) | [Hnone Htable]].
    - by apply resolveCommand_custom.
    - by rewrite (resolveCommand_default _ _ _ Hnone), Htable. }
  unfold x. rewrite (startServer_resolved _ _ _ _ _ _ _ _ Hresolve Hopen). simpl.
  repeat split; eauto.
Qed.

Lemma startServer_registers_before_handshake_witness :
  let x := startServer "7d0f" "cobol" "file:///tmp/proj" (Some "cobol-lsp") None
             one_session in
  spawned x.1 = [("typescript-language-server", ["--stdio"]); ("cobol-lsp", [])]%string
  ∧ servers x.1 !! "7d0f"%string = Some (registered "7d0f" "cobol" "file:///tmp/proj" 1)
  ∧ servers x.1 !! "s1"%string = Some (session "s1" 0 ∅)
  ∧ sent x.1 = [(1%nat, Request "initialize" (initParams 4242 "file:///tmp/proj"))].
Proof.
  intros x.
  destruct (startServer_registers_before_handshake "7d0f" "cobol" "file:///tmp/proj"
              "cobol-lsp" [] (Some "cobol-lsp") None one_session)
    as (Hspawned & Hservers & Hsent & _).
  { left. exists "cobol-lsp"%string. repeat split. discriminate. }
  { reflexivity. }
  fold x in Hspawned, Hservers, Hsent.
  split; [exact Hspawned |]. rewrite Hservers.
  split; [reflexivity |]. split; [reflexivity | exact Hsent].
Defined.

Lemma stopServer_completes (serverId : string) (server : LSPServerInfo) (m : LSPManager) :
  servers m !! serverId = Some server →
  completes
    (fun m' (_ : unit) =>
       servers m' !! serverId = None
       ∧ process server ∈ killed m'
       ∧ connection server ∈ disposed m')
    (stopServer serverId m).
Proof.
  intros Hs.
  assert (Hfinish : ∀ m1,
    completes
      (fun m' (_ : unit) =>
         servers m' !! serverId = None
         ∧ process server ∈ killed m'
         ∧ connection server ∈ disposed m')
      (stopServer_finish serverId server m1)).
  { intros m1. apply completes_now. apply stopServer_finish_removes. }
  unfold stopServer. rewrite Hs. unfold try_sendRequest.
  destruct (throwIfClosedOrDisposed _ m); [apply Hfinish |].
  apply completes_later. intros [v | cause] m1; [| apply Hfinish].
  unfold try_sendNotification.
  destruct (throwIfClosedOrDisposed _ m1); [apply Hfinish |].
  apply completes_later. intros [v' | cause'] m2; apply Hfinish.
Qed.

Lemma startServer_catch_failed (serverId : string) (err : error) (m1 : LSPManager) :
  handshake_failed serverId err m1 (startServer_catch serverId err m1).
Proof.
  unfold handshake_failed, startServer_catch.
  destruct (servers m1 !! serverId) as [server |] eqn:Hs.
  - pose proof (stopServer_completes serverId server m1 Hs) as Hstop.
    destruct (stopServer serverId m1) as [m' stop]. simpl. by exists stop.
  - unfold stopServer. rewrite Hs. simpl. by eexists.
Qed.

(** Where [startServer] is once it waits for the answer to initialize. *)
Lemma startServer_waiting (serverId language workspaceUri : string)
    (customCommand : option string) (customArgs : option (list string))
    (m : LSPManager) (c : nat * Message) (k1 : settle → Task string) :
  (startServer serverId language workspaceUri customCommand customArgs m).2 = Pending c k1 →
  k1 = (fun o =>
          match o with
          | Resolve _ =>
              try_sendNotification (length (spawned m)) "initialized" (JObj [])
                (startServer_initialized serverId) (startServer_catch serverId)
          | Reject cause => startServer_catch serverId (ProtocolFailure cause)
          end).
Proof.
  unfold startServer.
  destruct (resolveCommand language customCommand customArgs) as [e | [command args]];
    [discriminate |].
  unfold try_sendRequest.
  destruct (throwIfClosedOrDisposed _ _) as [err |].
  - unfold startServer_catch. destruct (stopServer _ _). discriminate.
  - simpl. by intros [= _ <-].
Qed.

(** X8: a handshake that succeeds. Once [startServer] waits for the answer
    to initialize, whatever state it is resumed in: when the request is
    resolved and the connection still accepts messages, it hands the
    initialized notification to the connection, changing nothing else, and
    waits again; when that is resolved too it is fulfilled with the
    generated identifier, and the only change is that the entry under that
    identifier, if there still is one, is marked initialized. A session
    that left the registry during the handshake is not registered again. *)
Theorem startServer_handshake_succeeds
    (serverId language workspaceUri : string)
    (customCommand : option string) (customArgs : option (list string))
    (m : LSPManager) (c : nat * Message) (k1 : settle → Task string) :
  (startServer serverId language workspaceUri customCommand customArgs m).2 = Pending c k1 →
  let h := length (spawned m) in
  ∀ v m1,
    throwIfClosedOrDisposed h m1 = None →
    ∃ k2,
      k1 (Resolve v) m1
      = (transmit h (Notification "initialized" (JObj [])) m1,
         Pending (h, Notification "initialized" (JObj [])) k2)
      ∧ ∀ v' m2,
          k2 (Resolve v') m2
          = (with_servers (alter (with_initialized true) serverId) m2, Fulfilled serverId)
          ∧ (servers m2 !! serverId = None →
             servers (k2 (Resolve v') m2).1 !! serverId = None).
Proof.
  intros Hwait h v m1 Hopen.
  rewrite (startServer_waiting _ _ _ _ _ _ _ _ Hwait).
  unfold try_sendNotification. fold h. rewrite Hopen.
  eexists. split; [reflexivity |].
  intros v' m2. split; [reflexivity |].
  intros Hgone. simpl. by rewrite lookup_alter_eq, Hgone.
Qed.

(** X9: a handshake that fails. Once [startServer] waits for the answer to
    initialize, whatever state it is resumed in: if the initialize request is
    rejected, or the connection refuses the initialized notification, or
    that notification is rejected, [startServer] is rejected with exactly
    that error, having started a stop of the session that it does not
    await. That stop removes the session, kills its process and disposes
    its connection if the session is still registered; if it is not, the
    stop is rejected with SessionNotFound and nothing else happens. *)
Theorem startServer_handshake_fails
    (serverId language workspaceUri : string)
    (customCommand : option string) (customArgs : option (list string))
    (m : LSPManager) (c : nat * Message) (k1 : settle → Task string) :
  (startServer serverId language workspaceUri customCommand customArgs m).2 = Pending c k1 →
  let h := length (spawned m) in
  (∀ cause m1,
     handshake_failed serverId (ProtocolFailure cause) m1 (k1 (Reject cause) m1))
  ∧ (∀ v m1 err,
       throwIfClosedOrDisposed h m1 = Some err →
       handshake_failed serverId err m1 (k1 (Resolve v) m1))
  ∧ (∀ v m1 c2 k2,
       (k1 (Resolve v) m1).2 = Pending c2 k2 →
       ∀ cause m2,
         handshake_failed serverId (ProtocolFailure cause) m2 (k2 (Reject cause) m2)).
Proof.
  intros Hwait h.
  rewrite (startServer_waiting _ _ _ _ _ _ _ _ Hwait). fold h.
  split; [intros cause m1; apply startServer_catch_failed |].
  split.
  - intros v m1 err Hclosed. unfold try_sendNotification. rewrite Hclosed.
    apply startServer_catch_failed.
  - intros v m1 c2 k2. unfold try_sendNotification.
    destruct (throwIfClosedOrDisposed h m1) as [err |].
    + unfold startServer_catch. destruct (stopServer _ _). discriminate.
    + simpl. intros [= _ <-] cause m2. apply startServer_catch_failed.
Qed.

Lemma startServer_handshake_succeeds_witness :
  let x := startServer "7d0f" "python" "file:///tmp/proj" None None idle in
  let y := resume (Resolve JNull) (resume (Resolve (JObj [])) x) in
  y.2 = Fulfilled "7d0f"%string
  ∧ initialized <$> servers x.1 !! "7d0f"%string = Some false
  ∧ initialized <$> servers y.1 !! "7d0f"%string = Some true.
Proof.
  intros x y.
  assert (Hwait : ∃ c k1, x.2 = Pending c k1) by (do 2 eexists; reflexivity).
  destruct Hwait as (c & k1 & Hwait).
  destruct (startServer_handshake_succeeds "7d0f" "python" "file:///tmp/proj" None None
              idle c k1 Hwait (JObj []) x.1 eq_refl) as (k2 & Hk1 & Hk2).
  assert (Hy : y = k2 (Resolve JNull)
                     (transmit 0 (Notification "initialized" (JObj [])) x.1)).
  { unfold y. unfold resume at 2. rewrite Hwait. unfold resume. by rewrite Hk1. }
  destruct (Hk2 JNull (transmit 0 (Notification "initialized" (JObj [])) x.1))
    as [Hdone _].
  rewrite Hy, Hdone. repeat split.
Defined.

Lemma startServer_handshake_fails_witness :
  let x := startServer "7d0f" "python" "file:///tmp/proj" None None idle in
  handshake_failed "7d0f" (ProtocolFailure "initialize failed") x.1
    (resume_in (Reject "initialize failed") x.1 x.2)
  ∧ resume_in (Reject "initialize failed") (on_process_exit "7d0f" x.1) x.2
    = (on_process_exit "7d0f" x.1,
       Detached (Rejected (SessionNotFound "7d0f"))
         (Rejected (ProtocolFailure "initialize failed"))).
Proof.
  intros x.
  assert (Hwait : ∃ c k1, x.2 = Pending c k1) by (do 2 eexists; reflexivity).
  destruct Hwait as (c & k1 & Hwait).
  destruct (startServer_handshake_fails "7d0f" "python" "file:///tmp/proj" None None
              idle c k1 Hwait) as (Hrejected & _ & _).
  rewrite Hwait. simpl. split; [apply Hrejected |].
  destruct (Hrejected "initialize failed"%string (on_process_exit "7d0f" x.1))
    as (stop & Hshape & Hgone).
  simpl in Hgone. destruct Hgone as [Hstate ->].
  destruct (k1 _ _) as [m' a]. simpl in *. by subst.
Defined.

(** ** Listing the sessions *)

Lemma listServers_ids (m : LSPManager) :
  well_formed m →
  (fun e : string * string * string * bool => e.1.1.1) <$> listServers m
  = (map_to_list (servers m)).*1.
Proof.
  intros Hwf. unfold listServers.
  rewrite <- !list_fmap_compose. apply Forall_fmap_ext, Forall_forall.
  intros [k s] Hin. simpl. apply elem_of_map_to_list in Hin.
  by apply (wf_id m Hwf).
Qed.

(** X10: listServers reports every registered session once. In a well-formed
    registry an entry (id, language, workspace, initialized) is listed
    exactly when a session with that language, workspace and flag is
    registered under id; no identifier is listed twice, and there are as
    many entries as sessions. (The order of the entries is not modelled.) *)
Theorem listServers_reports_registry (m : LSPManager) :
  well_formed m →
  (∀ k l w i,
     (k, l, w, i) ∈ listServers m
     ↔ ∃ s, servers m !! k = Some s
            ∧ language s = l ∧ workspaceUri s = w ∧ initialized s = i)
  ∧ NoDup ((fun e : string * string * string * bool => e.1.1.1) <$> listServers m)
  ∧ length (listServers m) = size (servers m).
Proof.
  intros Hwf. split; [| split].
  - intros k l w i. unfold listServers. rewrite list_elem_of_fmap. split.
    + intros (s & Heq & Hin). apply list_elem_of_fmap in Hin as ([k' s'] & -> & Hin).
      apply elem_of_map_to_list in Hin. simpl in Heq.
      injection Heq as -> -> -> ->. exists s'. split; [| done].
      by rewrite (wf_id m Hwf k' s' Hin).
    + intros (s & Hs & <- & <- & <-). exists s.
      split; [by rewrite (wf_id m Hwf k s Hs) |].
      apply list_elem_of_fmap. exists (k, s). split; [done |].
      by apply elem_of_map_to_list.
  - rewrite (listServers_ids m Hwf). apply NoDup_fst_map_to_list.
  - unfold listServers. rewrite !length_fmap. apply length_map_to_list.
Qed.

Lemma listServers_reports_registry_witness :
  ("s2", "python", "file:///tmp/proj", false)%string ∈ listServers started_twice
  ∧ length (listServers started_twice) = 2%nat
  ∧ ∀ l w i, ("s3", l, w, i)%string ∉ listServers started_twice.
Proof.
  destruct (listServers_reports_registry started_twice well_formed_started_twice)
    as (Hlisted & _ & Hlength).
  split; [| split].
  - apply Hlisted. eexists. split; [reflexivity | done].
  - rewrite Hlength. reflexivity.
  - intros l w i Hin. apply Hlisted in Hin as (s & Hs & _). discriminate Hs.
Defined.

(** ** When the process goes away *)

Lemma on_process_exit_unregistered (serverId : string) (m : LSPManager) :
  servers m !! serverId = None → on_process_exit serverId m = m.
Proof.
  intros Hs. destruct m as [registry p sp se cl di ki]. unfold on_process_exit, with_servers.
  simpl in *. by rewrite delete_id.
Qed.

(** X11: the 'exit' and 'error' handlers of a session's process. Either
    event removes that session's entry, with its documents, and touches
    nothing else: every other entry and every record of what was spawned,
    sent, disposed or killed stays. From then on stopServer for that
    identifier is refused with SessionNotFound, and a further event for it
    changes nothing; in particular the exit that follows a completed
    stopServer leaves the manager as the stop left it. *)
Theorem process_exit_removes_session (serverId : string) (m : LSPManager) :
  on_process_error serverId m = on_process_exit serverId m
  ∧ servers (on_process_exit serverId m) !! serverId = None
  ∧ (∀ k, k ≠ serverId → servers (on_process_exit serverId m) !! k = servers m !! k)
  ∧ spawned (on_process_exit serverId m) = spawned m
  ∧ sent (on_process_exit serverId m) = sent m
  ∧ disposed (on_process_exit serverId m) = disposed m
  ∧ killed (on_process_exit serverId m) = killed m
  ∧ stopServer serverId (on_process_exit serverId m)
    = (on_process_exit serverId m, Rejected (SessionNotFound serverId))
  ∧ on_process_exit serverId (on_process_exit serverId m) = on_process_exit serverId m
  ∧ (∀ server, servers m !! serverId = Some server →
       completes (fun m' _ => on_process_exit serverId m' = m') (stopServer serverId m)).
Proof.
  assert (Hgone : servers (on_process_exit serverId m) !! serverId = None)
    by apply lookup_delete_eq.
  split; [done |]. split; [exact Hgone |].
  split; [intros k Hne; by apply lookup_delete_ne |].
  do 4 (split; [done |]).
  split; [unfold stopServer; by rewrite Hgone |].
  split; [by apply on_process_exit_unregistered |].
  intros server Hs.
  assert (Hfinish : ∀ m1,
    completes (fun m' (_ : unit) => on_process_exit serverId m' = m')
      (stopServer_finish serverId server m1)).
  { intros m1. apply completes_now. apply on_process_exit_unregistered.
    apply lookup_delete_eq. }
  unfold stopServer. rewrite Hs. unfold try_sendRequest.
  destruct (throwIfClosedOrDisposed _ m); [apply Hfinish |].
  apply completes_later. intros [v | cause] m1; [| apply Hfinish].
  unfold try_sendNotification.
  destruct (throwIfClosedOrDisposed _ m1); [apply Hfinish |].
  apply completes_later. intros [v' | cause'] m2; apply Hfinish.
Qed.

Lemma process_exit_removes_session_witness :
  servers (on_process_exit "s1" two_sessions) !! "s1"%string = None
  ∧ servers (on_process_exit "s1" two_sessions) !! "s2"%string = Some (session "s2" 1 ∅)
  ∧ completes (fun m' _ => on_process_exit "s2" m' = m') (stopServer "s2" two_sessions).
Proof.
  destruct (process_exit_removes_session "s1" two_sessions)
    as (_ & Hgone & Hothers & _).
  destruct (process_exit_removes_session "s2" two_sessions)
    as (_ & _ & _ & _ & _ & _ & _ & _ & _ & Hstop).
  split; [exact Hgone |]. split.
  - rewrite Hothers; [reflexivity | discriminate].
  - apply (Hstop (session "s2" 1 ∅)). reflexivity.
Defined.

(** ** File URIs *)

Lemma hexValue_hexDigit (c : ascii) :
  hexValue (hexDigit (N_of_ascii c / 16)) = Some (N_of_ascii c / 16)%N
  ∧ hexValue (hexDigit (N_of_ascii c mod 16)) = Some (N_of_ascii c mod 16)%N.
Proof. destruct c as [[] [] [] [] [] [] [] []]; split; reflexivity. Qed.

Lemma ascii_of_nibbles (c : ascii) :
  ascii_of_N (16 * (N_of_ascii c / 16) + N_of_ascii c mod 16) = c.
Proof. rewrite <- N.div_mod by done. apply ascii_N_embedding. Qed.

Lemma uriUnescaped_plain (c : ascii) :
  uriUnescaped c = true → c ≠ "%"%char ∧ (N_of_ascii c < 128)%N.
Proof.
  destruct c as [[] [] [] [] [] [] [] []]; vm_compute; intros H;
    first [discriminate H | split; [discriminate | reflexivity]].
Qed.

Lemma percentEncode_safe (c : ascii) :
  Forall (fun a => uriUnescaped a = true ∨ a = "%"%char) (percentEncode c).
Proof.
  destruct c as [[] [] [] [] [] [] [] []];
    (constructor; [by right |]); (constructor; [by left |]);
    (constructor; [by left |]); constructor.
Qed.

(** One escaped octet, as [decodeURIComponent] reads it. *)
Lemma decode_percentEncode (c : ascii) (wanted : nat) (octets rest : list ascii) :
  decodeURIComponent_bytes wanted octets (percentEncode c ++ rest)
  = match wanted with
    | O =>
        match leadingOnes (N_of_ascii c) with
        | 0%nat => cons c <$> decodeURIComponent_bytes 0 [] rest
        | 2%nat => decodeURIComponent_bytes 1 [c] rest
        | 3%nat => decodeURIComponent_bytes 2 [c] rest
        | 4%nat => decodeURIComponent_bytes 3 [c] rest
        | _ => None
        end
    | S O =>
        if wellFormedOctets (octets ++ [c])
        then app (octets ++ [c]) <$> decodeURIComponent_bytes 0 [] rest
        else None
    | S wanted' => decodeURIComponent_bytes wanted' (octets ++ [c]) rest
    end.
Proof.
  destruct (hexValue_hexDigit c) as [Hhi Hlo].
  unfold percentEncode. simpl. rewrite Hhi, Hlo, ascii_of_nibbles.
  rewrite <- N.div_mod by done. done.
Qed.

Lemma lead_high (b : ascii) :
  (128 <= N_of_ascii b)%N → uriUnescaped b = false ∧ b ≠ "\"%char.
Proof.
  intros Hlo. split.
  - destruct (uriUnescaped b) eqn:Hb; [| done].
    apply uriUnescaped_plain in Hb as [_ Hb]. lia.
  - intros ->. vm_compute in Hlo. by apply Hlo.
Qed.

Ltac bools :=
  repeat match goal with
    | H : (_ && _)%bool = true |- _ => apply andb_true_iff in H as [? ?]
    | H : (_ || _)%bool = true |- _ => apply orb_true_iff in H as [? | ?]
    | H : (_ <=? _)%N = true |- _ => apply N.leb_le in H
    | H : (_ =? _)%N = true |- _ => apply N.eqb_eq in H
    | H : (_ <? _)%N = true |- _ => apply N.ltb_lt in H
    | H : (_ <? _)%N = false |- _ => apply N.ltb_ge in H
    end.

Lemma leadingOnes_range (b : N) :
  ((192 <= b < 224)%N → leadingOnes b = 2%nat)
  ∧ ((224 <= b < 240)%N → leadingOnes b = 3%nat)
  ∧ ((240 <= b < 248)%N → leadingOnes b = 4%nat)
  ∧ ((b < 128)%N → leadingOnes b = 0%nat).
Proof.
  unfold leadingOnes. repeat split; intros Hb; repeat case_match; bools; lia || done.
Qed.

Lemma continuation_range (b : N) :
  continuation b = true → (128 <= b <= 191)%N.
Proof. unfold continuation. intros H. bools. lia. Qed.

(** The shape of well-formed octets: two to four octets, none of them
    ASCII, the first saying how many there are. *)
Lemma wellFormedOctets_shape (octets : list ascii) :
  wellFormedOctets octets = true →
  (∃ b0 b1, octets = [b0; b1] ∧ leadingOnes (N_of_ascii b0) = 2%nat
            ∧ (128 <= N_of_ascii b0)%N ∧ (128 <= N_of_ascii b1)%N)
  ∨ (∃ b0 b1 b2, octets = [b0; b1; b2] ∧ leadingOnes (N_of_ascii b0) = 3%nat
                 ∧ (128 <= N_of_ascii b0)%N ∧ (128 <= N_of_ascii b1)%N
                 ∧ (128 <= N_of_ascii b2)%N)
  ∨ (∃ b0 b1 b2 b3, octets = [b0; b1; b2; b3] ∧ leadingOnes (N_of_ascii b0) = 4%nat
                    ∧ (128 <= N_of_ascii b0)%N ∧ (128 <= N_of_ascii b1)%N
                    ∧ (128 <= N_of_ascii b2)%N ∧ (128 <= N_of_ascii b3)%N).
Proof.
  unfold wellFormedOctets.
  destruct octets as [| b0 [| b1 [| b2 [| b3 [| b4 rest]]]]]; simpl; try discriminate;
    intros H.
  - left. exists b0, b1. split; [done |]. bools.
    match goal with Hc : continuation _ = true |- _ => apply continuation_range in Hc end.
    destruct (leadingOnes_range (N_of_ascii b0)) as (H2 & _).
    split; [apply H2; lia | lia].
  - right. left. exists b0, b1, b2. split; [done |].
    destruct (leadingOnes_range (N_of_ascii b0)) as (_ & H3 & _).
    bools;
      repeat match goal with
             | Hc : continuation _ = true |- _ => apply continuation_range in Hc
             end;
      (split; [apply H3; lia | lia]).
  - right. right. exists b0, b1, b2, b3. split; [done |].
    destruct (leadingOnes_range (N_of_ascii b0)) as (_ & _ & H4 & _).
    bools;
      repeat match goal with
             | Hc : continuation _ = true |- _ => apply continuation_range in Hc
             end;
      (split; [apply H4; lia | lia]).
Qed.

Lemma encodeURI_bytes_cons (c : ascii) (s : list ascii) :
  encodeURI_bytes (c :: s)
  = (if uriUnescaped c then [c] else percentEncode c) ++ encodeURI_bytes s.
Proof. reflexivity. Qed.

Lemma encodeURI_bytes_high (c : ascii) (s : list ascii) :
  (128 <= N_of_ascii c)%N →
  encodeURI_bytes (c :: s) = percentEncode c ++ encodeURI_bytes s.
Proof.
  intros Hc. rewrite encodeURI_bytes_cons. by destruct (lead_high c Hc) as [-> _].
Qed.

(** Decoding what [encodeURI] made of a UTF-8 string gives the string. *)
Lemma decode_encodeURI_bytes (s : list ascii) :
  utf8 s → decodeURIComponent_bytes 0 [] (encodeURI_bytes s) = Some s.
Proof.
  induction 1 as [| c s Hc Hs IH | octets s Hoctets Hs IH].
  - reflexivity.
  - rewrite encodeURI_bytes_cons. destruct (uriUnescaped c) eqn:Hplain.
    + apply uriUnescaped_plain in Hplain as [Hne _]. simpl.
      rewrite decide_False by done. by rewrite IH.
    + rewrite decode_percentEncode.
      destruct (leadingOnes_range (N_of_ascii c)) as (_ & _ & _ & H0).
      rewrite (H0 Hc). by rewrite IH.
  - pose proof Hoctets as Hshape. apply wellFormedOctets_shape in Hshape.
    destruct Hshape as [(b0 & b1 & -> & Hlead & H0 & H1)
                       | [(b0 & b1 & b2 & -> & Hlead & H0 & H1 & H2)
                         | (b0 & b1 & b2 & b3 & -> & Hlead & H0 & H1 & H2 & H3)]];
      cbn [app].
    + rewrite (encodeURI_bytes_high _ _ H0), decode_percentEncode, Hlead.
      rewrite (encodeURI_bytes_high _ _ H1), decode_percentEncode.
      simpl. rewrite Hoctets. by rewrite IH.
    + rewrite (encodeURI_bytes_high _ _ H0), decode_percentEncode, Hlead.
      rewrite (encodeURI_bytes_high _ _ H1), decode_percentEncode.
      rewrite (encodeURI_bytes_high _ _ H2), decode_percentEncode.
      simpl. rewrite Hoctets. by rewrite IH.
    + rewrite (encodeURI_bytes_high _ _ H0), decode_percentEncode, Hlead.
      rewrite (encodeURI_bytes_high _ _ H1), decode_percentEncode.
      rewrite (encodeURI_bytes_high _ _ H2), decode_percentEncode.
      rewrite (encodeURI_bytes_high _ _ H3), decode_percentEncode.
      simpl. rewrite Hoctets. by rewrite IH.
Qed.

Lemma slashes_cons (c : ascii) (s : list ascii) :
  slashes (c :: s) = (if decide (c = "\"%char) then "/"%char else c) :: slashes s.
Proof. reflexivity. Qed.

Lemma slashes_app (s1 s2 : list ascii) : slashes (s1 ++ s2) = slashes s1 ++ slashes s2.
Proof. apply fmap_app. Qed.

Lemma slashes_high (c : ascii) (s : list ascii) :
  (128 <= N_of_ascii c)%N → slashes (c :: s) = c :: slashes s.
Proof.
  intros Hc. rewrite slashes_cons. by rewrite decide_False by apply (lead_high c Hc).
Qed.

Lemma utf8_slashes (s : list ascii) : utf8 s → utf8 (slashes s).
Proof.
  induction 1 as [| c s Hc Hs IH | octets s Hoctets Hs IH].
  - constructor.
  - rewrite slashes_cons. apply utf8_ascii; [| done].
    case_decide; [by vm_compute | done].
  - rewrite slashes_app. replace (slashes octets) with octets; [by apply utf8_octets |].
    pose proof Hoctets as Hshape. apply wellFormedOctets_shape in Hshape.
    destruct Hshape as [(b0 & b1 & -> & _ & H0 & H1)
                       | [(b0 & b1 & b2 & -> & _ & H0 & H1 & H2)
                         | (b0 & b1 & b2 & b3 & -> & _ & H0 & H1 & H2 & H3)]];
      by repeat (rewrite slashes_high by done).
Qed.

Lemma slashes_none (s : list ascii) : "\"%char ∉ s → slashes s = s.
Proof.
  induction s as [| c s IH]; intros Hnot; [done |].
  apply not_elem_of_cons in Hnot as [Hne Hnot]. rewrite slashes_cons.
  rewrite decide_False by done. by rewrite IH.
Qed.

Lemma normalizeUri_file (rest : string) :
  normalizeUri ("file://" +:+ rest) = decodeURIComponent rest.
Proof.
  unfold normalizeUri.
  replace (String.prefix "file://" ("file://" +:+ rest)) with true
    by (by destruct rest).
  change (drop 7 (list_ascii_of_string ("file://" +:+ rest)))
    with (list_ascii_of_string rest).
  by rewrite string_of_list_ascii_of_string.
Qed.

Lemma leadingOnes_zero (b : N) : leadingOnes b = 0%nat → (b < 128)%N.
Proof. unfold leadingOnes. repeat case_match; bools; done || lia. Qed.

Lemma utf8_isWellFormed (s : list ascii) : utf8 s → isWellFormed s = true.
Proof.
  induction 1 as [| c s Hc Hs IH | octets s Hoctets Hs IH].
  - reflexivity.
  - destruct (leadingOnes_range (N_of_ascii c)) as (_ & _ & _ & H0).
    cbn [isWellFormed]. by rewrite (H0 Hc).
  - pose proof Hoctets as Hshape. apply wellFormedOctets_shape in Hshape.
    destruct Hshape as [(b0 & b1 & -> & Hlead & _)
                       | [(b0 & b1 & b2 & -> & Hlead & _)
                         | (b0 & b1 & b2 & b3 & -> & Hlead & _)]];
      cbn [app isWellFormed]; by rewrite Hlead, Hoctets, IH.
Qed.

Lemma isWellFormed_utf8_bounded (n : nat) :
  ∀ s, (length s ≤ n)%nat → isWellFormed s = true → utf8 s.
Proof.
  induction n as [| n IH]; intros s Hlen Hwf.
  - destruct s; [constructor | simpl in Hlen; lia].
  - destruct s as [| c rest]; [constructor |].
    cbn [isWellFormed] in Hwf. simpl in Hlen.
    destruct (leadingOnes (N_of_ascii c)) as [| [| [| [| [| k]]]]] eqn:Hlead;
      try discriminate.
    + apply utf8_ascii; [by apply leadingOnes_zero |]. apply IH; [lia | done].
    + destruct rest as [| b1 rest']; [discriminate |].
      apply andb_true_iff in Hwf as [Hoctets Hrest]. simpl in Hlen.
      apply (utf8_octets [c; b1] rest' Hoctets). apply IH; [lia | done].
    + destruct rest as [| b1 [| b2 rest']]; try discriminate.
      apply andb_true_iff in Hwf as [Hoctets Hrest]. simpl in Hlen.
      apply (utf8_octets [c; b1; b2] rest' Hoctets). apply IH; [lia | done].
    + destruct rest as [| b1 [| b2 [| b3 rest']]]; try discriminate.
      apply andb_true_iff in Hwf as [Hoctets Hrest]. simpl in Hlen.
      apply (utf8_octets [c; b1; b2; b3] rest' Hoctets). apply IH; [lia | done].
Qed.

(** [isWellFormed] decides [utf8]. *)
Lemma isWellFormed_utf8 (s : list ascii) : isWellFormed s = true ↔ utf8 s.
Proof.
  split; [| apply utf8_isWellFormed].
  by apply (isWellFormed_utf8_bounded (length s)).
Qed.

Lemma slash_high_inv (a b : ascii) :
  (128 <= N_of_ascii b)%N →
  (if decide (a = "\"%char) then "/"%char else a) = b → a = b.
Proof.
  intros Hb. case_decide; [| done]. intros <-. vm_compute in Hb. by destruct Hb.
Qed.

Lemma slashes_inv_cons (s : list ascii) (b : ascii) (t : list ascii) :
  slashes s = b :: t →
  ∃ a s', s = a :: s' ∧ (if decide (a = "\"%char) then "/"%char else a) = b
          ∧ slashes s' = t.
Proof.
  destruct s as [| a s']; [discriminate |]. rewrite slashes_cons.
  intros [= Ha Ht]. by exists a, s'.
Qed.

Lemma utf8_slashes_inv (t : list ascii) :
  utf8 t → ∀ s, slashes s = t → utf8 s.
Proof.
  induction 1 as [| c t Hc Ht IH | octets t Hoctets Ht IH]; intros s Hs.
  - destruct s; [constructor | discriminate].
  - apply slashes_inv_cons in Hs as (a & s' & -> & Ha & Hs').
    apply utf8_ascii; [| by apply IH].
    case_decide; [by subst a | by subst c].
  - pose proof Hoctets as Hshape. apply wellFormedOctets_shape in Hshape.
    destruct Hshape as [(b0 & b1 & -> & _ & H0 & H1)
                       | [(b0 & b1 & b2 & -> & _ & H0 & H1 & H2)
                         | (b0 & b1 & b2 & b3 & -> & _ & H0 & H1 & H2 & H3)]];
      cbn [app] in Hs;
      repeat match type of Hs with
             | slashes _ = _ :: _ =>
                 let a := fresh "a" in
                 let Ha := fresh "Ha" in
                 apply slashes_inv_cons in Hs as (a & ? & -> & Ha & Hs);
                 apply slash_high_inv in Ha; [subst a | assumption]
             end.
    + apply (utf8_octets [b0; b1]); [done | by apply IH].
    + apply (utf8_octets [b0; b1; b2]); [done | by apply IH].
    + apply (utf8_octets [b0; b1; b2; b3]); [done | by apply IH].
Qed.

Lemma encodeURI_utf8 (s : list ascii) :
  utf8 s →
  encodeURI (string_of_list_ascii s) = Some (string_of_list_ascii (encodeURI_bytes s)).
Proof.
  intros Hs. unfold encodeURI. rewrite list_ascii_of_string_of_list_ascii.
  by rewrite (utf8_isWellFormed s Hs).
Qed.

Lemma pathToUri_utf8 (filePath : string) :
  utf8 (list_ascii_of_string filePath) →
  pathToUri filePath
  = Some ("file://" +:+ string_of_list_ascii
                          (encodeURI_bytes (slashes (list_ascii_of_string filePath)))).
Proof.
  intros Hs. unfold pathToUri. by rewrite encodeURI_utf8 by (by apply utf8_slashes).
Qed.

(** X12: a path survives the trip to a file URI and back. For a path that
    is a well-formed string, [pathToUri] does not throw, [normalizeUri] of
    its result does not throw and gives the path with its backslashes
    turned into slashes; a path without backslash comes back as it was.
    This holds although [pathToUri] escapes with encodeURI and
    [normalizeUri] decodes with decodeURIComponent. *)
Theorem normalizeUri_pathToUri (filePath : string) :
  utf8 (list_ascii_of_string filePath) →
  pathToUri filePath ≫= normalizeUri
  = Some (string_of_list_ascii (slashes (list_ascii_of_string filePath)))
  ∧ (("\"%char) ∉ list_ascii_of_string filePath →
     pathToUri filePath ≫= normalizeUri = Some filePath).
Proof.
  intros Hutf8.
  assert (Hback : pathToUri filePath ≫= normalizeUri
                  = Some (string_of_list_ascii (slashes (list_ascii_of_string filePath)))).
  { rewrite (pathToUri_utf8 _ Hutf8). simpl. rewrite normalizeUri_file.
    unfold decodeURIComponent.
    rewrite !list_ascii_of_string_of_list_ascii.
    rewrite decode_encodeURI_bytes by (by apply utf8_slashes). done. }
  split; [exact Hback |].
  intros Hnone. rewrite Hback, (slashes_none _ Hnone).
  by rewrite string_of_list_ascii_of_string.
Qed.

Lemma normalizeUri_pathToUri_witness :
  pathToUri "C:\données\a b%.ts" ≫= normalizeUri = Some "C:/données/a b%.ts"%string
  ∧ pathToUri "/tmp/my proj/a.ts" ≫= normalizeUri = Some "/tmp/my proj/a.ts"%string.
Proof.
  split.
  - apply (normalizeUri_pathToUri "C:\données\a b%.ts").
    repeat first [ apply utf8_nil
                 | apply utf8_ascii; [reflexivity |]
                 | apply (utf8_octets [_; _]); [reflexivity |] ].
  - apply (normalizeUri_pathToUri "/tmp/my proj/a.ts").
    + repeat first [apply utf8_nil | apply utf8_ascii; [reflexivity |]].
    + vm_compute. intros Hin.
      repeat (apply elem_of_cons in Hin as [Hin | Hin]; [discriminate Hin |]).
      by apply elem_of_nil in Hin.
Defined.

Lemma encodeURI_bytes_safe (s : list ascii) :
  Forall (fun a => uriUnescaped a = true ∨ a = "%"%char) (encodeURI_bytes s).
Proof.
  induction s as [| c s IH]; [constructor |].
  rewrite encodeURI_bytes_cons. apply Forall_app. split; [| exact IH].
  destruct (uriUnescaped c) eqn:Hc; [| apply percentEncode_safe].
  constructor; [by left | constructor].
Qed.

(** X13: [pathToUri] throws or writes nothing but URI characters. It throws
    (URIError) exactly when the path is not a well-formed string. Whenever
    it returns, the result is [file://] followed only by characters that
    encodeURI leaves alone and by [%]; in particular it holds no backslash,
    no space and no byte outside ASCII. *)
Theorem pathToUri_characters (filePath : string) :
  (pathToUri filePath = None ↔ ¬ utf8 (list_ascii_of_string filePath))
  ∧ (∀ uri,
       pathToUri filePath = Some uri →
       ∃ rest,
         uri = "file://" +:+ rest
         ∧ Forall (fun a => uriUnescaped a = true ∨ a = "%"%char)
             (list_ascii_of_string rest)
         ∧ ("\"%char ∉ list_ascii_of_string rest)
         ∧ (" "%char ∉ list_ascii_of_string rest)
         ∧ Forall (fun a => (N_of_ascii a < 128)%N) (list_ascii_of_string rest)).
Proof.
  split.
  - split.
    + intros Hnone Hutf8. by rewrite (pathToUri_utf8 _ Hutf8) in Hnone.
    + intros Hnot. unfold pathToUri, encodeURI.
      rewrite list_ascii_of_string_of_list_ascii.
      destruct (isWellFormed (slashes (list_ascii_of_string filePath))) eqn:Hwf; [| done].
      exfalso. apply Hnot. apply isWellFormed_utf8 in Hwf.
      by apply (utf8_slashes_inv _ Hwf).
  - intros uri. unfold pathToUri, encodeURI.
    rewrite list_ascii_of_string_of_list_ascii.
    destruct (isWellFormed (slashes (list_ascii_of_string filePath))); [| discriminate].
    simpl. intros [= <-]. eexists. split; [reflexivity |].
    rewrite !list_ascii_of_string_of_list_ascii.
    pose proof (encodeURI_bytes_safe (slashes (list_ascii_of_string filePath))) as Hsafe.
    split; [exact Hsafe |].
    rewrite Forall_forall in Hsafe.
    split; [| split].
    + intros Hin. by destruct (Hsafe _ Hin) as [H | H].
    + intros Hin. by destruct (Hsafe _ Hin) as [H | H].
    + apply Forall_forall. intros a Hin. destruct (Hsafe _ Hin) as [H | ->].
      * by apply uriUnescaped_plain in H as [_ H].
      * reflexivity.
Qed.

Lemma pathToUri_characters_witness :
  pathToUri (string_of_list_ascii [ascii_of_N 237; ascii_of_N 160; ascii_of_N 128]) = None
  ∧ pathToUri "C:\My Files\a.ts" = Some "file://C:/My%20Files/a.ts"%string
  ∧ (" "%char ∉ list_ascii_of_string "C:/My%20Files/a.ts").
Proof.
  destruct (pathToUri_characters
              (string_of_list_ascii [ascii_of_N 237; ascii_of_N 160; ascii_of_N 128]))
    as [[_ Hthrows] _].
  destruct (pathToUri_characters "C:\My Files\a.ts") as [_ Hsafe].
  split; [| split; [reflexivity |]].
  - apply Hthrows. intros Hutf8. apply utf8_isWellFormed in Hutf8. discriminate Hutf8.
  - destruct (Hsafe "file://C:/My%20Files/a.ts"%string eq_refl)
      as (rest & Heq & _ & _ & Hspace & _).
    vm_compute in Heq. injection Heq as <-. exact Hspace.
Defined.

Lemma decode_plain (s : list ascii) :
  "%"%char ∉ s → decodeURIComponent_bytes 0 [] s = Some s.
Proof.
  induction s as [| c s IH]; intros Hnot; [done |].
  apply not_elem_of_cons in Hnot as [Hne Hnot]. simpl.
  rewrite decide_False by done. by rewrite IH.
Qed.

Lemma decode_truncated_bounded (n : nat) :
  ∀ (s tail octets : list ascii) (wanted : nat),
    (length s ≤ n)%nat → (length tail < 2)%nat →
    decodeURIComponent_bytes wanted octets (s ++ "%"%char :: tail) = None.
Proof.
  induction n as [| n IH]; intros s tail octets wanted Hs Htail.
  - destruct s; [| simpl in Hs; lia].
    destruct tail as [| h [| l tail]]; simpl in *; [done | done | lia].
  - destruct s as [| c r].
    { destruct tail as [| h [| l tail]]; simpl in *; [done | done | lia]. }
    simpl in Hs. cbn [app decodeURIComponent_bytes].
    destruct (decide (c = "%"%char)) as [-> | Hne].
    + destruct r as [| h [| l r']].
      * destruct tail as [| t [| t' tail]]; simpl in *; [done | done | lia].
      * cbn [app]. by destruct (hexValue h).
      * cbn [app]. simpl in Hs.
        destruct (hexValue h) as [hi |]; [| done].
        destruct (hexValue l) as [lo |]; [| done].
        destruct wanted as [| [| wanted]].
        -- repeat case_match; try done; by rewrite IH by (done || lia).
        -- case_match; [| done]. by rewrite IH by (done || lia).
        -- by rewrite IH by (done || lia).
    + destruct wanted; [| done]. by rewrite IH by (done || lia).
Qed.

(** A [%] with fewer than two characters after it makes the decoding fail,
    whatever comes before. *)
Lemma decode_truncated (s tail : list ascii) :
  (length tail < 2)%nat →
  decodeURIComponent_bytes 0 [] (s ++ "%"%char :: tail) = None.
Proof. intros Htail. by apply (decode_truncated_bounded (length s)). Qed.

Lemma list_ascii_of_string_append (s1 s2 : string) :
  list_ascii_of_string (s1 +:+ s2) = list_ascii_of_string s1 ++ list_ascii_of_string s2.
Proof.
  induction s1 as [| c s1 IH]; [done |].
  change (c :: list_ascii_of_string (s1 +:+ s2)
          = c :: list_ascii_of_string s1 ++ list_ascii_of_string s2).
  by rewrite IH.
Qed.

Lemma length_list_ascii (s : string) :
  length (list_ascii_of_string s) = String.length s.
Proof. induction s as [| c s IH]; simpl; [done | by rewrite IH]. Qed.

(** X14: what [normalizeUri] does with a URI it is given. A string that
    does not start with [file://] is returned as it is, whatever it holds.
    From a file URI without [%] the text after [file://] is returned
    unchanged. A file URI in which a [%] is followed by fewer than two
    characters makes it throw (URIError), whatever comes before that [%]. *)
Theorem normalizeUri_cases (uri rest tail : string) :
  (String.prefix "file://" uri = false → normalizeUri uri = Some uri)
  ∧ (("%"%char) ∉ list_ascii_of_string rest →
     normalizeUri ("file://" +:+ rest) = Some rest)
  ∧ ((String.length tail < 2)%nat →
     normalizeUri ("file://" +:+ rest +:+ "%" +:+ tail) = None).
Proof.
  split; [| split].
  - intros Hprefix. unfold normalizeUri. by rewrite Hprefix.
  - intros Hnot. rewrite normalizeUri_file. unfold decodeURIComponent.
    rewrite (decode_plain _ Hnot). simpl. by rewrite string_of_list_ascii_of_string.
  - intros Htail. rewrite normalizeUri_file. unfold decodeURIComponent.
    rewrite list_ascii_of_string_append.
    change (list_ascii_of_string ("%" +:+ tail)) with ("%"%char :: list_ascii_of_string tail).
    rewrite decode_truncated; [done |].
    by rewrite length_list_ascii.
Qed.

Lemma normalizeUri_cases_witness :
  normalizeUri "untitled:Untitled-1%" = Some "untitled:Untitled-1%"%string
  ∧ normalizeUri "file:///tmp/proj/a.ts" = Some "/tmp/proj/a.ts"%string
  ∧ normalizeUri "file:///tmp/100%" = None
  ∧ normalizeUri "file:///tmp/a%20b%2" = None.
Proof.
  assert (Hplain : ∀ s : list ascii,
            bool_decide ("%"%char ∈ s) = false → "%"%char ∉ s).
  { intros s Hs Hin. by rewrite (bool_decide_eq_true_2 _ Hin) in Hs. }
  destruct (normalizeUri_cases "untitled:Untitled-1%" "/tmp/proj/a.ts" "")
    as (Hother & Hfile & _).
  destruct (normalizeUri_cases "" "/tmp/100" "") as (_ & _ & Hend).
  destruct (normalizeUri_cases "" "/tmp/a%20b" "2") as (_ & _ & Hshort).
  split; [apply Hother; reflexivity |].
  split; [apply Hfile, Hplain; reflexivity |].
  split.
  - apply Hend. simpl. lia.
  - apply Hshort. simpl. lia.
Defined.
